(** * A shallow embedding of the Pokemon API service (src/main.py)

    The service hydrates catalog entities from an upstream provider,
    compares batches of them, lists named groups, and keeps small per-user
    teams in a process-wide dictionary.

    Python values are embedded as follows.
    - An exception is a value of [exn]; a call that may raise returns a
      [result].  [try_except] is the [try: ... except Exception: ...] block.
    - A handler that mutates [POKEMON_TEAMS] takes the store and returns the
      store it leaves behind together with its result, so that the mutations
      made before a [raise] stay visible.
    - The upstream provider is a value of [upstream]: what [client.get]
      answers for each endpoint and key during one operation.
    - JSON payloads are records typed after the provider's schema; a
      dictionary built by the code ([stats], [POKEMON_TEAMS], the comparison
      tables) is a [gmap].
    - Strings are ASCII; [str_lower] is [str.lower] on them. *)

From Stdlib Require Import ZArith String Ascii List Lia.
From stdpp Require Import base option list gmap strings.

Local Open Scope string_scope.
Local Open Scope Z_scope.

(** ** Exceptions and results *)

Inductive exn : Type :=
| AttributeError                                  (* method missing on the receiver *)
| KeyError (key : string)                         (* subscript of a missing key *)
| ValidationError (field : string)                (* pydantic rejects a field *)
| JSONDecodeError                                 (* response.json() on a bad body *)
| TransportError                                  (* client.get fails to complete *)
| ValueError                                      (* max()/min() of an empty list *)
| HTTPException (status_code : Z) (detail : string).

Inductive result (A : Type) : Type :=
| Ok (a : A)
| Raise (e : exn).
Arguments Ok {A} a.
Arguments Raise {A} e.

Definition bind {A B} (r : result A) (k : A -> result B) : result B :=
  match r with
  | Ok a => k a
  | Raise e => Raise e
  end.

Notation "'let*' x ':=' r 'in' k" := (bind r (fun x => k))
  (at level 10, x name, r at level 100, k at level 200).

(** [try: body  except Exception: return handler] *)
Definition try_except {A} (body : result A) (handler : exn -> A) : A :=
  match body with
  | Ok a => a
  | Raise e => handler e
  end.

Definition is_ok {A} (r : result A) : Prop := exists a, r = Ok a.

(** ** Strings *)

Definition lower_ascii (c : ascii) : ascii :=
  let n := nat_of_ascii c in
  if (65 <=? n)%nat && (n <=? 90)%nat then ascii_of_nat (n + 32) else c.

(** [s.lower()] *)
Fixpoint str_lower (s : string) : string :=
  match s with
  | EmptyString => EmptyString
  | String c s' => String (lower_ascii c) (str_lower s')
  end.

(** [s.replace(old, new)] for one-character [old] and [new]. *)
Fixpoint str_replace (old new : ascii) (s : string) : string :=
  match s with
  | EmptyString => EmptyString
  | String c s' =>
      String (if Ascii.eqb c old then new else c) (str_replace old new s')
  end.

Definition newline : ascii := ascii_of_nat 10.
Definition formfeed : ascii := ascii_of_nat 12.
Definition space : ascii := ascii_of_nat 32.
Definition hyphen : ascii := ascii_of_nat 45.

(** The [name_or_id] argument of the fetchers is untyped in the source: the
    request handlers pass a string, [get_pokemon_details] passes
    [pokemon_data["id"]], an integer. *)
Inductive name_or_id : Type :=
| Name (s : string)
| Ident (n : Z).

(** [name_or_id.lower()]: a method of [str], absent on [int]. *)
Definition lower (x : name_or_id) : result string :=
  match x with
  | Name s => Ok (str_lower s)
  | Ident _ => Raise AttributeError
  end.

(** ** Upstream payloads *)

(** [pokemon_data["sprites"]["front_default"]]: the key may be missing, hold
    JSON null, or hold a string. *)
Inductive sprite_ref : Type :=
| SpriteMissing
| SpriteNull
| SpriteStr (url : string).

(** The core payload: the fields [get_pokemon_details] reads. [pd_types] and
    [pd_abilities] are the [name]s inside the [{type: {name}}] and
    [{ability: {name}}] wrappers, [pd_stats] the [(stat.name, base_stat)]
    pairs, in upstream order. *)
Record pokemon_data : Type := {
  pd_id : Z;
  pd_name : string;
  pd_types : list string;
  pd_abilities : list string;
  pd_stats : list (string * Z);
  pd_front_default : sprite_ref;
  pd_height : Z;
  pd_weight : Z
}.

Record flavor_text_entry : Type := {
  flavor_text : string;
  language_name : string
}.

(** The species payload; each key may be missing from the object. *)
Record species_data : Type := {
  sd_flavor_text_entries : option (list flavor_text_entry);
  sd_is_legendary : option bool;
  sd_is_mythical : option bool
}.

(** The pokedex payload: the [pokemon_species.name] of each entry. *)
Record pokedex_data : Type := {
  pokemon_entries : list string
}.

(** An HTTP response; [json = None] is a body that [response.json()] cannot
    decode. *)
Record response (A : Type) : Type := {
  status_code : Z;
  json : option A
}.
Arguments status_code {A} r.
Arguments json {A} r.

Definition response_json {A} (r : response A) : result A :=
  match json r with
  | Some a => Ok a
  | None => Raise JSONDecodeError
  end.

(** What [client.get(f"{POKEAPI_BASE_URL}/<endpoint>/<key>")] does, per
    endpoint: a response, or a transport fault ([Raise]). *)
Record upstream : Type := {
  pokemon_endpoint : string -> result (response pokemon_data);
  pokemon_species_endpoint : string -> result (response species_data);
  pokedex_endpoint : string -> result (response pokedex_data)
}.

(** ** Response models *)

Module PokemonDetail.
Record t : Type := mk {
  id : Z;
  name : string;
  types : list string;
  sprite_url : string;
  height : Z;
  weight : Z;
  abilities : list string;
  stats : gmap string Z;
  is_legendary : bool;
  is_mythical : bool;
  description : option string
}.

(** The constructor call [PokemonDetail(id=..., ..., description=...)].
    [sprite_url: str] is a required string field: JSON null ([None]) is
    rejected by validation. The other arguments already have their field's
    type. *)
Definition new (id : Z) (name : string) (types : list string)
    (sprite_url : option string) (height weight : Z)
    (abilities : list string) (stats : gmap string Z)
    (is_legendary is_mythical : bool) (description : option string)
  : result t :=
  match sprite_url with
  | Some url =>
      Ok (mk id name types url height weight abilities stats
             is_legendary is_mythical description)
  | None => Raise (ValidationError "sprite_url")
  end.
End PokemonDetail.

(** ** Fetchers *)

Definition fetch_pokemon_data (client : upstream) (x : name_or_id)
  : option pokemon_data :=
  try_except
    (let* key := lower x in
     let* response := pokemon_endpoint client key in
     if status_code response =? 200
     then let* data := response_json response in Ok (Some data)
     else Ok None)
    (fun _ => None).

Definition fetch_pokemon_species (client : upstream) (x : name_or_id)
  : option species_data :=
  try_except
    (let* key := lower x in
     let* response := pokemon_species_endpoint client key in
     if status_code response =? 200
     then let* data := response_json response in Ok (Some data)
     else Ok None)
    (fun _ => None).

(** ** Hydrator *)

(** [{s["stat"]["name"]: s["base_stat"] for s in ...}]: a later pair
    overwrites an earlier one with the same name. *)
Definition dict_of_pairs (l : list (string * Z)) : gmap string Z :=
  foldl (fun d kv => <[kv.1 := kv.2]> d) ∅ l.

(** [pokemon_data["sprites"]["front_default"]] *)
Definition subscript_front_default (d : pokemon_data) : result (option string) :=
  match pd_front_default d with
  | SpriteMissing => Raise (KeyError "front_default")
  | SpriteNull => Ok None
  | SpriteStr url => Ok (Some url)
  end.

(** The [description] local of [get_pokemon_details]: [None] unless
    [species_data] is there and has a ["flavor_text_entries"] key (an empty
    object, which is false, has no such key either) and [english_entries],
    the entries whose language is ["en"], is not empty; then
    [english_entries[0]["flavor_text"]] with newlines, then form feeds,
    replaced by spaces. *)
Definition english_description (species : option species_data) : option string :=
  match species with
  | Some sd =>
      match sd_flavor_text_entries sd with
      | Some entries =>
          let english_entries :=
            filter (fun entry => language_name entry = "en") entries in
          match english_entries with
          | entry :: _ =>
              Some (str_replace formfeed space
                      (str_replace newline space (flavor_text entry)))
          | [] => None
          end
      | None => None
      end
  | None => None
  end.

(** [species_data.get(key, False) if species_data else False] *)
Definition species_flag (get : species_data -> option bool)
    (species : option species_data) : bool :=
  match species with
  | Some sd => default false (get sd)
  | None => false
  end.

(** [get_pokemon_details]. A core payload is a non-empty JSON object, so
    [if not pokemon_data] is taken exactly when the fetcher answered
    [None]. The arguments of the constructor call are evaluated, in order,
    before the fields are validated. *)
Definition get_pokemon_details (client : upstream) (x : name_or_id)
  : result (option PokemonDetail.t) :=
  match fetch_pokemon_data client x with
  | None => Ok None
  | Some pokemon_data =>
      let species := fetch_pokemon_species client (Ident (pd_id pokemon_data)) in
      let types := pd_types pokemon_data in
      let abilities := map (str_replace hyphen space) (pd_abilities pokemon_data) in
      let stats := dict_of_pairs (pd_stats pokemon_data) in
      let description := english_description species in
      let* sprite := subscript_front_default pokemon_data in
      let* detail :=
        PokemonDetail.new (pd_id pokemon_data) (pd_name pokemon_data) types
          sprite (pd_height pokemon_data) (pd_weight pokemon_data)
          abilities stats
          (species_flag sd_is_legendary species)
          (species_flag sd_is_mythical species)
          description in
      Ok (Some detail)
  end.

(** ** Batch resolution *)

(** [await asyncio.gather] over the unpacked [tasks]: the results, in the
    order of the tasks.
    An exception raised by a task is raised by [gather]; of several raising
    tasks the model reports the first in list order. *)
Fixpoint gather {A} (tasks : list (result A)) : result (list A) :=
  match tasks with
  | [] => Ok []
  | task :: rest =>
      let* a := task in
      let* others := gather rest in
      Ok (a :: others)
  end.

(** [tasks = [get_pokemon_details(name) for name in pokemon_names]]
    followed by [results = await asyncio.gather] over them. *)
Definition gather_details (client : upstream) (pokemon_names : list string)
  : result (list (option PokemonDetail.t)) :=
  gather (map (fun name => get_pokemon_details client (Name name)) pokemon_names).

(** [for result in results: if result: pokemon_list.append(result)],
    starting from [pokemon_list = []] (in [compare_pokemon]). *)
Definition append_found (results : list (option PokemonDetail.t))
  : list PokemonDetail.t :=
  foldl (fun (pokemon_list : list PokemonDetail.t) result =>
           match result with
           | Some p => (pokemon_list ++ [p])%list
           | None => pokemon_list
           end) [] results.

(** [[result for result in results if result]] (in [get_trainer_pokemon] and
    [get_region_pokemon]). *)
Fixpoint keep_found (results : list (option PokemonDetail.t))
  : list PokemonDetail.t :=
  match results with
  | [] => []
  | Some p :: rest => p :: keep_found rest
  | None :: rest => keep_found rest
  end.

(** ** Comparator *)

(** [max(items, key=key)]: the running best is replaced only by an item
    whose key is strictly greater. *)
Fixpoint max_from {A} (key : A -> Z) (best : A) (items : list A) : A :=
  match items with
  | [] => best
  | item :: rest =>
      if key best <? key item then max_from key item rest
      else max_from key best rest
  end.

(** [min(items, key=key)]: replaced only by a strictly smaller key. *)
Fixpoint min_from {A} (key : A -> Z) (best : A) (items : list A) : A :=
  match items with
  | [] => best
  | item :: rest =>
      if key item <? key best then min_from key item rest
      else min_from key best rest
  end.

Definition py_max {A} (key : A -> Z) (items : list A) : result A :=
  match items with
  | [] => Raise ValueError
  | first :: rest => Ok (max_from key first rest)
  end.

Definition py_min {A} (key : A -> Z) (items : list A) : result A :=
  match items with
  | [] => Raise ValueError
  | first :: rest => Ok (min_from key first rest)
  end.

Record extremes : Type := {
  highest : string * Z;
  lowest : string * Z
}.

(** The [comparison] dictionary of [compare_pokemon]. *)
Record comparison_tables : Type := {
  cmp_stats : gmap string extremes;
  cmp_types : gmap string (list string);
  cmp_height : extremes;
  cmp_weight : extremes
}.

Module ComparisonResult.
Record t : Type := mk {
  pokemon : list PokemonDetail.t;
  comparison : comparison_tables
}.
End ComparisonResult.

Definition STAT_NAMES : list string :=
  ["hp"; "attack"; "defense"; "special-attack"; "special-defense"; "speed"].

(** [p.stats.get(stat, 0)] *)
Definition stat_value (stat : string) (p : PokemonDetail.t) : Z :=
  default 0 (PokemonDetail.stats p !! stat).

(** [(p.name, value(p))] *)
Definition name_and (value : PokemonDetail.t -> Z) (p : PokemonDetail.t)
  : string * Z :=
  (PokemonDetail.name p, value p).

(** [{"highest": max([(p.name, value(p)) for p in pokemon_list], key=lambda x: x[1]),]
    [ "lowest":  min([(p.name, value(p)) for p in pokemon_list], key=lambda x: x[1])}] *)
Definition extremes_of (value : PokemonDetail.t -> Z)
    (pokemon_list : list PokemonDetail.t) : result extremes :=
  let pairs := map (name_and value) pokemon_list in
  let* hi := py_max snd pairs in
  let* lo := py_min snd pairs in
  Ok {| highest := hi; lowest := lo |}.

(** [for stat in [...]: comparison["stats"][stat] = {...}] *)
Fixpoint compare_stats (stat_names : list string)
    (pokemon_list : list PokemonDetail.t) (table : gmap string extremes)
  : result (gmap string extremes) :=
  match stat_names with
  | [] => Ok table
  | stat :: rest =>
      let* e := extremes_of (stat_value stat) pokemon_list in
      compare_stats rest pokemon_list (<[stat := e]> table)
  end.

(** [all_types = set()] filled by the two nested loops. *)
Definition all_types (pokemon_list : list PokemonDetail.t) : gset string :=
  foldl (fun acc p => foldl (fun acc type_name => acc ∪ {[type_name]})
                            acc (PokemonDetail.types p))
        ∅ pokemon_list.

(** [for type_name in all_types: comparison["types"][type_name] =]
    [[p.name for p in pokemon_list if type_name in p.types]] *)
Definition compare_types (pokemon_list : list PokemonDetail.t)
  : gmap string (list string) :=
  set_fold (fun type_name table =>
              <[type_name :=
                  map PokemonDetail.name
                      (filter (fun p => type_name ∈ PokemonDetail.types p)
                              pokemon_list)]> table)
           ∅ (all_types pokemon_list).

Definition build_comparison (pokemon_list : list PokemonDetail.t)
  : result comparison_tables :=
  let* stats := compare_stats STAT_NAMES pokemon_list ∅ in
  let types := compare_types pokemon_list in
  let* height := extremes_of PokemonDetail.height pokemon_list in
  let* weight := extremes_of PokemonDetail.weight pokemon_list in
  Ok {| cmp_stats := stats; cmp_types := types;
        cmp_height := height; cmp_weight := weight |}.

(** The body of [compare_pokemon]; the [Query] bounds of its parameter are
    the framework's concern. *)
Definition compare_pokemon (client : upstream) (pokemon_names : list string)
  : result ComparisonResult.t :=
  if (length pokemon_names <? 2)%nat then
    Raise (HTTPException 400 "Please provide at least 2 Pokemon to compare")
  else if (6 <? length pokemon_names)%nat then
    Raise (HTTPException 400 "You can compare a maximum of 6 Pokemon")
  else
    let* results := gather_details client pokemon_names in
    let pokemon_list := append_found results in
    match pokemon_list with
    | [] => Raise (HTTPException 404 "None of the requested Pokemon were found")
    | _ :: _ =>
        let* comparison := build_comparison pokemon_list in
        Ok (ComparisonResult.mk pokemon_list comparison)
    end.

(** ** Named groups *)

Definition FAMOUS_TRAINERS : gmap string (list string) :=
  list_to_map
    [("ash", ["pikachu"; "charizard"; "squirtle"; "bulbasaur"; "greninja";
              "infernape"; "sceptile"; "lycanroc"; "dragonite"; "gengar"]);
     ("misty", ["starmie"; "staryu"; "goldeen"; "psyduck"; "togepi"; "gyarados"]);
     ("brock", ["onix"; "geodude"; "vulpix"; "crobat"; "sudowoodo"; "steelix"]);
     ("gary", ["blastoise"; "umbreon"; "electivire"; "arcanine"; "nidoking"; "scizor"]);
     ("lance", ["dragonite"; "gyarados"; "aerodactyl"; "charizard"; "tyranitar"]);
     ("cynthia", ["garchomp"; "spiritomb"; "milotic"; "roserade"; "togekiss"; "lucario"])].

Record region_info : Type := {
  generation : string;
  pokedex : string
}.

Definition POKEMON_REGIONS : gmap string region_info :=
  list_to_map
    [("kanto", {| generation := "generation-i"; pokedex := "kanto" |});
     ("johto", {| generation := "generation-ii"; pokedex := "original-johto" |});
     ("hoenn", {| generation := "generation-iii"; pokedex := "hoenn" |});
     ("sinnoh", {| generation := "generation-iv"; pokedex := "original-sinnoh" |});
     ("unova", {| generation := "generation-v"; pokedex := "original-unova" |});
     ("kalos", {| generation := "generation-vi"; pokedex := "kalos-central" |});
     ("alola", {| generation := "generation-vii"; pokedex := "original-alola" |});
     ("galar", {| generation := "generation-viii"; pokedex := "galar" |})].

Definition get_trainer_pokemon (client : upstream) (trainer_name : string)
  : result (list PokemonDetail.t) :=
  let trainer_name := str_lower trainer_name in
  match FAMOUS_TRAINERS !! trainer_name with
  | None =>
      Raise (HTTPException 404 ("Trainer " +:+ trainer_name +:+ " not found"))
  | Some pokemon_names =>
      let* results := gather_details client pokemon_names in
      Ok (keep_found results)
  end.

(** A slice bound as Python normalises it for a list of length [len]. *)
Definition slice_bound (len i : Z) : Z :=
  if i <? 0 then Z.max 0 (i + len) else Z.min i len.

(** [l[start:stop]] *)
Definition py_slice {A} (l : list A) (start stop : Z) : list A :=
  let len := Z.of_nat (length l) in
  let lo := slice_bound len start in
  let hi := slice_bound len stop in
  take (Z.to_nat (hi - lo)) (drop (Z.to_nat lo) l).

Definition get_region_pokemon (client : upstream) (region_name : string)
    (limit offset : Z) : result (list PokemonDetail.t) :=
  let region_name := str_lower region_name in
  match POKEMON_REGIONS !! region_name with
  | None =>
      Raise (HTTPException 404 ("Region " +:+ region_name +:+ " not found"))
  | Some region_info =>
      let* response := pokedex_endpoint client (pokedex region_info) in
      if negb (status_code response =? 200) then
        Raise (HTTPException 500 "Failed to fetch region data")
      else
        let* pokedex_data := response_json response in
        let paginated_entries :=
          py_slice (pokemon_entries pokedex_data) offset (offset + limit) in
        let* results := gather_details client paginated_entries in
        Ok (keep_found results)
  end.

(** [get_pokemon]: the single-entity lookup. *)
Definition get_pokemon (client : upstream) (name_or_id : string)
  : result PokemonDetail.t :=
  let* pokemon := get_pokemon_details client (Name name_or_id) in
  match pokemon with
  | None => Raise (HTTPException 404 ("Pokemon " +:+ name_or_id +:+ " not found"))
  | Some p => Ok p
  end.

(** ** Team store *)

Module TeamResponse.
Record t : Type := mk {
  user_id : string;
  team : list PokemonDetail.t;
  team_size : nat
}.
End TeamResponse.

(** [POKEMON_TEAMS]: user id to team. *)
Abbreviation team_store := (gmap string (list PokemonDetail.t)).

(** A request handler over [POKEMON_TEAMS]: it is given the dictionary and
    leaves one behind, whether it returns or raises. *)
Definition handler (A : Type) : Type := team_store -> team_store * result A.

Definition ret {A} (a : A) : handler A := fun teams => (teams, Ok a).

Definition raise {A} (e : exn) : handler A := fun teams => (teams, Raise e).

Definition hbind {A B} (m : handler A) (k : A -> handler B) : handler B :=
  fun teams =>
    match m teams with
    | (teams', Ok a) => k a teams'
    | (teams', Raise e) => (teams', Raise e)
    end.

Notation "'let!' x ':=' m 'in' k" := (hbind m (fun x => k))
  (at level 10, x name, m at level 100, k at level 200).

(** [user_id in POKEMON_TEAMS] *)
Definition contains (user_id : string) : handler bool :=
  fun teams => (teams, Ok (bool_decide (is_Some (teams !! user_id)))).

(** [POKEMON_TEAMS[user_id]] *)
Definition getitem (user_id : string) : handler (list PokemonDetail.t) :=
  fun teams =>
    match teams !! user_id with
    | Some team => (teams, Ok team)
    | None => (teams, Raise (KeyError user_id))
    end.

(** [POKEMON_TEAMS[user_id] = team]; also the effect of mutating the list
    stored under [user_id] in place. *)
Definition setitem (user_id : string) (team : list PokemonDetail.t)
  : handler unit :=
  fun teams => (<[user_id := team]> teams, Ok tt).

(** [await] of a call that does not touch the store. *)
Definition await {A} (r : result A) : handler A := fun teams => (teams, r).

(** [not team]: an empty list is false. *)
Definition is_empty (team : list PokemonDetail.t) : bool :=
  match team with
  | [] => true
  | _ :: _ => false
  end.

Definition get_team (user_id : string) : handler TeamResponse.t :=
  let! known := contains user_id in
  let! no_team :=
    (if negb known then ret true
     else let! team := getitem user_id in ret (is_empty team)) in
  if no_team then ret (TeamResponse.mk user_id [] 0)
  else
    let! team := getitem user_id in
    ret (TeamResponse.mk user_id team (length team)).

Definition add_to_team (client : upstream) (user_id pokemon_name : string)
  : handler TeamResponse.t :=
  let! known := contains user_id in
  let! _ := (if negb known then setitem user_id [] else ret tt) in
  let! team := getitem user_id in
  if (6 <=? length team)%nat then
    raise (HTTPException 400
      "Team is already full (maximum 6 Pokemon). Remove a Pokemon before adding a new one.")
  else
    let! team := getitem user_id in
    let pokemon_names := map PokemonDetail.name team in
    if bool_decide (str_lower pokemon_name ∈ pokemon_names) then
      raise (HTTPException 400
        ("Pokemon " +:+ pokemon_name +:+ " is already in your team"))
    else
      let! pokemon := await (get_pokemon_details client (Name pokemon_name)) in
      match pokemon with
      | None =>
          raise (HTTPException 404 ("Pokemon " +:+ pokemon_name +:+ " not found"))
      | Some p =>
          let! team := getitem user_id in
          let! _ := setitem user_id (team ++ [p])%list in
          let! team := getitem user_id in
          ret (TeamResponse.mk user_id team (length team))
      end.

(** The [for i, pokemon in enumerate(...)] scan of [remove_from_team]: the
    index of the first member whose lower-cased name is [pokemon_name]. *)
Fixpoint find_member (pokemon_name : string) (team : list PokemonDetail.t)
    (i : nat) : option nat :=
  match team with
  | [] => None
  | pokemon :: rest =>
      if bool_decide (str_lower (PokemonDetail.name pokemon) = pokemon_name)
      then Some i
      else find_member pokemon_name rest (S i)
  end.

Definition remove_from_team (user_id pokemon_name : string)
  : handler TeamResponse.t :=
  let! known := contains user_id in
  let! no_team :=
    (if negb known then ret true
     else let! team := getitem user_id in ret (is_empty team)) in
  if no_team then
    raise (HTTPException 404 ("User " +:+ user_id +:+ " doesn't have a team yet"))
  else
    let pokemon_name := str_lower pokemon_name in
    let! team := getitem user_id in
    match find_member pokemon_name team 0 with
    | Some i =>
        let! _ := setitem user_id (delete i team) in
        let! team := getitem user_id in
        ret (TeamResponse.mk user_id team (length team))
    | None =>
        raise (HTTPException 404
          ("Pokemon " +:+ pokemon_name +:+ " not found in your team"))
    end.

(** *** Sequences of team operations *)

Inductive team_op : Type :=
| OpGet (user_id : string)
| OpAdd (client : upstream) (user_id pokemon_name : string)
| OpRemove (user_id pokemon_name : string).

(** The store an operation leaves behind. Each operation runs to completion
    before the next one starts; the upstream may answer differently from
    one operation to the next. *)
Definition run_op (teams : team_store) (op : team_op) : team_store :=
  match op with
  | OpGet user_id => (get_team user_id teams).1
  | OpAdd client user_id pokemon_name =>
      (add_to_team client user_id pokemon_name teams).1
  | OpRemove user_id pokemon_name =>
      (remove_from_team user_id pokemon_name teams).1
  end.

(** The store after a sequence of operations from the empty dictionary. *)
Definition run_ops (ops : list team_op) : team_store := foldl run_op ∅ ops.

(** The ordered list of records stored for a user; no list for a user the
    dictionary does not know. *)
Definition team_of (teams : team_store) (user_id : string)
  : list PokemonDetail.t :=
  default [] (teams !! user_id).

(** ** Vocabulary of the properties *)

(** The record built from a core payload whose sprite is the string [url],
    when the species fetch has come back empty. *)
Definition hydrated (d : pokemon_data) (url : string) : PokemonDetail.t :=
  PokemonDetail.mk (pd_id d) (pd_name d) (pd_types d) url
    (pd_height d) (pd_weight d)
    (map (str_replace hyphen space) (pd_abilities d))
    (dict_of_pairs (pd_stats d)) false false None.

(** The hydration of [name] returns, with a record or with [None]. *)
Definition returns (client : upstream) (name : string) : Prop :=
  is_ok (get_pokemon_details client (Name name)).

(** The record [name] resolves to, if it resolves. *)
Definition resolved (client : upstream) (name : string)
  : option PokemonDetail.t :=
  match get_pokemon_details client (Name name) with
  | Ok (Some p) => Some p
  | _ => None
  end.

(** The records of the names that resolve, in the order of the names. *)
Fixpoint surviving_records (client : upstream) (names : list string)
  : list PokemonDetail.t :=
  match names with
  | [] => []
  | name :: rest =>
      match resolved client name with
      | Some p => p :: surviving_records client rest
      | None => surviving_records client rest
      end
  end.

(** [entry] is the (name, value) pair of the first record of [l], in list
    order, whose value is the greatest of the list. *)
Definition first_with_max (value : PokemonDetail.t -> Z)
    (l : list PokemonDetail.t) (entry : string * Z) : Prop :=
  exists (i : nat) (p : PokemonDetail.t),
    l !! i = Some p /\
    entry = (PokemonDetail.name p, value p) /\
    (forall q, q ∈ l -> value q <= value p) /\
    (forall (j : nat) q, (j < i)%nat -> l !! j = Some q -> value q <> value p).

(** The same for the least value. *)
Definition first_with_min (value : PokemonDetail.t -> Z)
    (l : list PokemonDetail.t) (entry : string * Z) : Prop :=
  exists (i : nat) (p : PokemonDetail.t),
    l !! i = Some p /\
    entry = (PokemonDetail.name p, value p) /\
    (forall q, q ∈ l -> value p <= value q) /\
    (forall (j : nat) q, (j < i)%nat -> l !! j = Some q -> value q <> value p).

(** The detail of the error raised by an add to a full team. *)
Definition FULL_TEAM : string :=
  "Team is already full (maximum 6 Pokemon). Remove a Pokemon before adding a new one.".

(** The store [add_to_team] works on once it has initialised the user's
    entry. *)
Definition initialised (user_id : string) (teams : team_store) : team_store :=
  match teams !! user_id with
  | Some _ => teams
  | None => <[user_id := []]> teams
  end.

(** No team of the store has more than six members. *)
Definition capped (teams : team_store) : Prop :=
  forall u, (length (team_of teams u) <= 6)%nat.

(** The lower-cased names of a team's members. *)
Definition member_names (team : list PokemonDetail.t) : list string :=
  map (fun p => str_lower (PokemonDetail.name p)) team.

(** The user an operation is addressed to. *)
Definition op_user (op : team_op) : string :=
  match op with
  | OpGet user_id => user_id
  | OpAdd _ user_id _ => user_id
  | OpRemove user_id _ => user_id
  end.

(** An add whose request is the canonical name: the record it hydrates
    to, if any, is named like the lower-cased request. The other operations
    are unconstrained. *)
Definition canonical_op (op : team_op) : Prop :=
  match op with
  | OpAdd client _ pokemon_name =>
      forall p,
        get_pokemon_details client (Name pokemon_name) = Ok (Some p) ->
        PokemonDetail.name p = str_lower pokemon_name
  | _ => True
  end.

(** The character [c] occurs in [s]. *)
Definition occurs_in (c : ascii) (s : string) : Prop :=
  In c (list_ascii_of_string s).

(** What every record built by the hydrator carries for the species-derived
    fields. *)
Definition species_defaults (p : PokemonDetail.t) : Prop :=
  PokemonDetail.is_legendary p = false /\
  PokemonDetail.is_mythical p = false /\
  PokemonDetail.description p = None.


(** ** Sample upstream data *)

Definition sprite_of (n : string) : sprite_ref :=
  SpriteStr ("https://raw.githubusercontent.com/PokeAPI/sprites/master/sprites/pokemon/"
             +:+ n +:+ ".png").

Definition six_stats (hp attack defense special_attack special_defense speed : Z)
  : list (string * Z) :=
  [("hp", hp); ("attack", attack); ("defense", defense);
   ("special-attack", special_attack); ("special-defense", special_defense);
   ("speed", speed)].

Definition bulbasaur_data : pokemon_data :=
  {| pd_id := 1; pd_name := "bulbasaur"; pd_types := ["grass"; "poison"];
     pd_abilities := ["overgrow"; "chlorophyll"];
     pd_stats := six_stats 45 49 49 65 65 45;
     pd_front_default := sprite_of "1"; pd_height := 7; pd_weight := 69 |}.

Definition charmander_data : pokemon_data :=
  {| pd_id := 4; pd_name := "charmander"; pd_types := ["fire"];
     pd_abilities := ["blaze"; "solar-power"];
     pd_stats := six_stats 39 52 43 60 50 65;
     pd_front_default := sprite_of "4"; pd_height := 6; pd_weight := 85 |}.

Definition charizard_data : pokemon_data :=
  {| pd_id := 6; pd_name := "charizard"; pd_types := ["fire"; "flying"];
     pd_abilities := ["blaze"; "solar-power"];
     pd_stats := six_stats 78 84 78 109 85 100;
     pd_front_default := sprite_of "6"; pd_height := 17; pd_weight := 905 |}.

Definition squirtle_data : pokemon_data :=
  {| pd_id := 7; pd_name := "squirtle"; pd_types := ["water"];
     pd_abilities := ["torrent"; "rain-dish"];
     pd_stats := six_stats 44 48 65 50 64 43;
     pd_front_default := sprite_of "7"; pd_height := 5; pd_weight := 90 |}.

Definition pikachu_data : pokemon_data :=
  {| pd_id := 25; pd_name := "pikachu"; pd_types := ["electric"];
     pd_abilities := ["static"; "lightning-rod"];
     pd_stats := six_stats 35 55 40 50 50 90;
     pd_front_default := sprite_of "25"; pd_height := 4; pd_weight := 60 |}.

Definition eevee_data : pokemon_data :=
  {| pd_id := 133; pd_name := "eevee"; pd_types := ["normal"];
     pd_abilities := ["run-away"; "adaptability"; "anticipation"];
     pd_stats := six_stats 55 55 50 45 65 55;
     pd_front_default := sprite_of "133"; pd_height := 3; pd_weight := 65 |}.

Definition mew_data : pokemon_data :=
  {| pd_id := 151; pd_name := "mew"; pd_types := ["psychic"];
     pd_abilities := ["synchronize"];
     pd_stats := six_stats 100 100 100 100 100 100;
     pd_front_default := sprite_of "151"; pd_height := 4; pd_weight := 40 |}.

(** An entity whose payload carries [front_default: null]. *)
Definition spriteless_data : pokemon_data :=
  {| pd_id := 10158; pd_name := "pikachu-starter"; pd_types := ["electric"];
     pd_abilities := ["static"; "lightning-rod"];
     pd_stats := six_stats 45 80 50 75 60 120;
     pd_front_default := SpriteNull; pd_height := 4; pd_weight := 60 |}.

Definition pikachu_flavor_en : string :=
  "When several of" +:+ String newline "these POKeMON"
  +:+ String formfeed "gather, their" +:+ String newline "electricity could"
  +:+ String newline "build and cause lightning storms.".

Definition pikachu_species : species_data :=
  {| sd_flavor_text_entries :=
       Some [ {| flavor_text := "Quand plusieurs de ces Pokemon se reunissent";
                 language_name := "fr" |};
              {| flavor_text := pikachu_flavor_en; language_name := "en" |};
              {| flavor_text := "It keeps its tail raised."; language_name := "en" |} ];
     sd_is_legendary := Some false;
     sd_is_mythical := Some false |}.

Definition mew_species : species_data :=
  {| sd_flavor_text_entries :=
       Some [ {| flavor_text := "So rare that it is still said to be a mirage.";
                 language_name := "en" |} ];
     sd_is_legendary := Some false;
     sd_is_mythical := Some true |}.

(** An endpoint serving a table: status 200 with the payload for a listed
    key, status 404 with an undecodable body otherwise. *)
Definition serve {A} (table : list (string * A)) (key : string)
  : result (response A) :=
  match (list_to_map table : gmap string A) !! key with
  | Some a => Ok {| status_code := 200; json := Some a |}
  | None => Ok {| status_code := 404; json := None |}
  end.

Definition sample_pokemon : list (string * pokemon_data) :=
  [("bulbasaur", bulbasaur_data); ("1", bulbasaur_data);
   ("charmander", charmander_data); ("4", charmander_data);
   ("charizard", charizard_data); ("6", charizard_data);
   ("squirtle", squirtle_data); ("7", squirtle_data);
   ("pikachu", pikachu_data); ("25", pikachu_data);
   ("eevee", eevee_data); ("133", eevee_data);
   ("mew", mew_data); ("151", mew_data);
   ("pikachu-starter", spriteless_data); ("10158", spriteless_data)].

Definition sample_species : list (string * species_data) :=
  [("pikachu", pikachu_species); ("25", pikachu_species);
   ("mew", mew_species); ("151", mew_species)].

Definition sample_upstream : upstream :=
  {| pokemon_endpoint := serve sample_pokemon;
     pokemon_species_endpoint := serve sample_species;
     pokedex_endpoint :=
       serve [("kanto", {| pokemon_entries :=
                             ["bulbasaur"; "charmander"; "squirtle"; "pikachu"] |})] |}.

(** The same provider with every pokedex reported as not found. *)
Definition no_pokedex_upstream : upstream :=
  {| pokemon_endpoint := serve sample_pokemon;
     pokemon_species_endpoint := serve sample_species;
     pokedex_endpoint := serve [] |}.

(** The same provider with a species endpoint that never completes. *)
Definition no_species_upstream : upstream :=
  {| pokemon_endpoint := serve sample_pokemon;
     pokemon_species_endpoint := fun _ => Raise TransportError;
     pokedex_endpoint := pokedex_endpoint sample_upstream |}.

Definition red_team_ops : list team_op :=
  [OpAdd sample_upstream "red" "bulbasaur";
   OpAdd sample_upstream "red" "Charmander";
   OpAdd sample_upstream "red" "squirtle";
   OpAdd sample_upstream "red" "pikachu";
   OpAdd sample_upstream "red" "eevee";
   OpAdd sample_upstream "red" "charizard"].


(** * Properties *)

(** ** The hydrator *)

Section Hydrator.
Variable client : upstream.

(** [.lower()] fails on an integer key, and the fetcher's [except] clause
    turns that into [None] before any request is made. *)
Lemma fetch_pokemon_species_ident (n : Z) :
  fetch_pokemon_species client (Ident n) = None.
Proof. reflexivity. Qed.

(** With a string key the species fetcher does return what upstream
    serves. *)
Lemma fetch_pokemon_species_name (s : string) (sd : species_data) :
  pokemon_species_endpoint client (str_lower s)
    = Ok {| status_code := 200; json := Some sd |} ->
  fetch_pokemon_species client (Name s) = Some sd.
Proof.
  intros H. unfold fetch_pokemon_species, lower, bind, try_except.
  rewrite H. reflexivity.
Qed.

(** The four ways a hydration ends. *)
Lemma get_pokemon_details_cases (x : name_or_id) :
  match fetch_pokemon_data client x with
  | None => get_pokemon_details client x = Ok None
  | Some d =>
      match pd_front_default d with
      | SpriteMissing =>
          get_pokemon_details client x = Raise (KeyError "front_default")
      | SpriteNull =>
          get_pokemon_details client x = Raise (ValidationError "sprite_url")
      | SpriteStr url =>
          get_pokemon_details client x = Ok (Some (hydrated d url))
      end
  end.
Proof.
  unfold get_pokemon_details.
  destruct (fetch_pokemon_data client x) as [d|]; [|reflexivity].
  rewrite fetch_pokemon_species_ident.
  unfold subscript_front_default, hydrated.
  destruct (pd_front_default d); reflexivity.
Qed.

Lemma get_pokemon_details_some (x : name_or_id) (p : PokemonDetail.t) :
  get_pokemon_details client x = Ok (Some p) ->
  exists d url,
    fetch_pokemon_data client x = Some d /\
    pd_front_default d = SpriteStr url /\
    p = hydrated d url.
Proof.
  intros H. pose proof (get_pokemon_details_cases x) as C.
  destruct (fetch_pokemon_data client x) as [d|]; [|congruence].
  destruct (pd_front_default d) as [| |url] eqn:E; try congruence.
  exists d, url. repeat split; congruence.
Qed.
End Hydrator.

(** Given a species payload, the description is the text of its first
    English entry, line and page breaks replaced by spaces. *)
Lemma english_description_first_english
    (sd : species_data) (before after : list flavor_text_entry)
    (entry : flavor_text_entry) :
  sd_flavor_text_entries sd = Some (before ++ entry :: after)%list ->
  Forall (fun e => language_name e <> "en") before ->
  language_name entry = "en" ->
  english_description (Some sd)
  = Some (str_replace formfeed space
            (str_replace newline space (flavor_text entry))).
Proof.
  intros Hsd Hbefore Hen. unfold english_description. rewrite Hsd.
  clear Hsd. induction Hbefore as [|e before He _ IH]; simpl.
  - rewrite filter_cons_True by exact Hen. reflexivity.
  - rewrite filter_cons_False by exact He. exact IH.
Qed.

(** C10: the species lookup is made with the integer identifier of the core
    payload; lower-casing that key raises and the fetcher answers [None],
    whatever the species endpoint serves. Hence every record the hydrator
    returns has both flags false and no description. *)
Theorem hydrated_record_has_species_defaults
    (client : upstream) (x : name_or_id) (p : PokemonDetail.t) :
  get_pokemon_details client x = Ok (Some p) ->
  exists d,
    fetch_pokemon_data client x = Some d /\
    PokemonDetail.id p = pd_id d /\
    lower (Ident (pd_id d)) = Raise AttributeError /\
    fetch_pokemon_species client (Ident (pd_id d)) = None /\
    PokemonDetail.is_legendary p = false /\
    PokemonDetail.is_mythical p = false /\
    PokemonDetail.description p = None.
Proof.
  intros H. apply get_pokemon_details_some in H as (d & url & Hd & _ & ->).
  exists d. repeat split; assumption.
Qed.

Lemma hydrated_record_has_species_defaults_witness :
  exists p d,
    get_pokemon_details sample_upstream (Name "mew") = Ok (Some p) /\
    fetch_pokemon_data sample_upstream (Name "mew") = Some d /\
    PokemonDetail.id p = pd_id d /\
    lower (Ident (pd_id d)) = Raise AttributeError /\
    fetch_pokemon_species sample_upstream (Ident (pd_id d)) = None /\
    PokemonDetail.is_legendary p = false /\
    PokemonDetail.is_mythical p = false /\
    PokemonDetail.description p = None.
Proof.
  exists (hydrated mew_data
            "https://raw.githubusercontent.com/PokeAPI/sprites/master/sprites/pokemon/151.png").
  destruct (hydrated_record_has_species_defaults sample_upstream (Name "mew")
              (hydrated mew_data
                 "https://raw.githubusercontent.com/PokeAPI/sprites/master/sprites/pokemon/151.png"))
    as (d & H); [vm_compute; reflexivity|].
  exists d. split; [vm_compute; reflexivity | exact H].
Defined.

(** C1, evaluated where it fails: upstream serves a species payload for
    pikachu, under its name and under its identifier 25, whose first English
    flavor text normalises to a one-line description; the hydrated record
    has no description. *)
Lemma english_description_lost :
  exists p,
    get_pokemon_details sample_upstream (Name "pikachu") = Ok (Some p) /\
    PokemonDetail.id p = 25 /\
    pokemon_species_endpoint sample_upstream "25"
      = Ok {| status_code := 200; json := Some pikachu_species |} /\
    english_description (Some pikachu_species)
      = Some "When several of these POKeMON gather, their electricity could build and cause lightning storms." /\
    PokemonDetail.description p = None.
Proof.
  eexists. split; [vm_compute; reflexivity|].
  repeat split; vm_compute; reflexivity.
Qed.

(** C5, refuted: the core fetch succeeds, the payload's sprite reference is
    null, and the hydration raises instead of returning a record or
    [None]. *)
Lemma null_sprite_raises :
  fetch_pokemon_data sample_upstream (Name "pikachu-starter") = Some spriteless_data /\
  pd_front_default spriteless_data = SpriteNull /\
  get_pokemon_details sample_upstream (Name "pikachu-starter")
    = Raise (ValidationError "sprite_url") /\
  ~ is_ok (get_pokemon_details sample_upstream (Name "pikachu-starter")).
Proof.
  assert (E : get_pokemon_details sample_upstream (Name "pikachu-starter")
              = Raise (ValidationError "sprite_url"))
    by (vm_compute; reflexivity).
  repeat split; try (vm_compute; reflexivity).
  rewrite E. intros [a Ha]. discriminate Ha.
Qed.

(** C5, amended: a hydration ends in exactly one of four ways. It returns
    [None] when the core fetch does; it returns a record carrying the
    payload's sprite string when there is one; it raises a validation error
    when the sprite reference is null, and a key error when it is missing.
    No returned record is without a sprite string. *)
Theorem hydrate_outcomes (client : upstream) (x : name_or_id) :
  (fetch_pokemon_data client x = None /\
   get_pokemon_details client x = Ok None) \/
  (exists d url p,
     fetch_pokemon_data client x = Some d /\
     pd_front_default d = SpriteStr url /\
     get_pokemon_details client x = Ok (Some p) /\
     PokemonDetail.sprite_url p = url /\
     PokemonDetail.id p = pd_id d /\
     PokemonDetail.name p = pd_name d) \/
  (exists d,
     fetch_pokemon_data client x = Some d /\
     pd_front_default d = SpriteNull /\
     get_pokemon_details client x = Raise (ValidationError "sprite_url")) \/
  (exists d,
     fetch_pokemon_data client x = Some d /\
     pd_front_default d = SpriteMissing /\
     get_pokemon_details client x = Raise (KeyError "front_default")).
Proof.
  pose proof (get_pokemon_details_cases client x) as C.
  destruct (fetch_pokemon_data client x) as [d|]; [|left; auto].
  right. destruct (pd_front_default d) as [| |url] eqn:E.
  - right; right. exists d; auto.
  - right; left. exists d; auto.
  - left. exists d, url, (hydrated d url). repeat split; auto.
Qed.

(** ** The batch resolver *)

Lemma gather_map_ok {A B} (f : A -> result B) (g : A -> B) (l : list A) :
  Forall (fun a => f a = Ok (g a)) l ->
  gather (map f l) = Ok (map g l).
Proof.
  induction 1 as [|a l Ha _ IH]; simpl; [reflexivity|].
  rewrite Ha, IH. reflexivity.
Qed.

(** A raising task makes the whole batch raise. *)
Lemma gather_raises {A} (tasks : list (result A)) :
  Exists (fun t => ~ is_ok t) tasks -> ~ is_ok (gather tasks).
Proof.
  induction 1 as [t l Ht | t l _ IH]; simpl; intros [rs Hrs].
  - destruct t as [a|e]; [apply Ht; eexists; reflexivity | discriminate].
  - destruct t as [a|e]; [|discriminate]. simpl in Hrs.
    destruct (gather l) as [others|e] eqn:E; [|discriminate].
    apply IH. eexists; reflexivity.
Qed.

Lemma returns_resolved (client : upstream) (name : string) :
  returns client name ->
  get_pokemon_details client (Name name) = Ok (resolved client name).
Proof.
  intros [o Ho]. unfold resolved. rewrite Ho. destruct o; reflexivity.
Qed.

Lemma gather_details_returns (client : upstream) (names : list string) :
  Forall (returns client) names ->
  gather_details client names = Ok (map (resolved client) names).
Proof.
  intros H. unfold gather_details. apply gather_map_ok.
  eapply Forall_impl; [exact H|]. intros name. apply returns_resolved.
Qed.

(** The appending loop, started from any list, extends it by the found
    records in order. *)
Lemma append_found_from (acc : list PokemonDetail.t)
    (results : list (option PokemonDetail.t)) :
  foldl (fun (pokemon_list : list PokemonDetail.t) result =>
           match result with
           | Some p => (pokemon_list ++ [p])%list
           | None => pokemon_list
           end) acc results
  = (acc ++ keep_found results)%list.
Proof.
  revert acc. induction results as [|[p|] rest IH]; intros acc; simpl.
  - symmetry. apply app_nil_r.
  - rewrite IH, <- app_assoc. reflexivity.
  - apply IH.
Qed.

Lemma append_found_keep_found (results : list (option PokemonDetail.t)) :
  append_found results = keep_found results.
Proof. unfold append_found. apply append_found_from. Qed.

Lemma keep_found_resolved (client : upstream) (names : list string) :
  keep_found (map (resolved client) names) = surviving_records client names.
Proof.
  induction names as [|name rest IH]; simpl; [reflexivity|].
  destruct (resolved client name); rewrite IH; reflexivity.
Qed.

(** C3, refuted: of three requested names two resolve, yet the batch
    returns no list at all, because the hydration of the third raises; the
    comparison over the same names raises the same fault. *)
Lemma batch_raises_though_names_resolve :
  is_Some (resolved sample_upstream "pikachu") /\
  is_Some (resolved sample_upstream "mew") /\
  length (surviving_records sample_upstream
            ["pikachu"; "pikachu-starter"; "mew"]) = 2%nat /\
  gather_details sample_upstream ["pikachu"; "pikachu-starter"; "mew"]
    = Raise (ValidationError "sprite_url") /\
  compare_pokemon sample_upstream ["pikachu"; "pikachu-starter"; "mew"]
    = Raise (ValidationError "sprite_url").
Proof.
  split; [eexists; vm_compute; reflexivity|].
  split; [eexists; vm_compute; reflexivity|].
  repeat split; vm_compute; reflexivity.
Qed.

(** C3, amended: for a list of names whose hydrations all return, with a
    record or with [None], the gathered results filtered by the appending
    loop of [compare_pokemon], and likewise by the comprehension of the
    trainer and region lookups, are exactly the records of the names that
    resolved, in the order of the names; when the hydration of some name
    raises, the batch raises and there is no list. *)
Theorem batch_keeps_resolved_in_input_order
    (client : upstream) (names : list string) :
  (Forall (returns client) names ->
   exists results,
     gather_details client names = Ok results /\
     append_found results = surviving_records client names /\
     keep_found results = surviving_records client names) /\
  (Exists (fun name => ~ returns client name) names ->
   exists e, gather_details client names = Raise e).
Proof.
  split.
  - intros H. exists (map (resolved client) names).
    split; [apply gather_details_returns, H|].
    rewrite append_found_keep_found, keep_found_resolved. split; reflexivity.
  - intros H.
    assert (G : ~ is_ok (gather_details client names)).
    { unfold gather_details. apply gather_raises.
      apply Exists_exists in H as (name & Hin & Hname).
      apply Exists_exists. exists (get_pokemon_details client (Name name)).
      split; [|exact Hname].
      apply list_elem_of_fmap. exists name. split; [reflexivity|exact Hin]. }
    destruct (gather_details client names) as [results|e].
    + exfalso. apply G. eexists. reflexivity.
    + exists e. reflexivity.
Qed.

Lemma batch_keeps_resolved_in_input_order_witness :
  (exists results,
     gather_details sample_upstream ["pikachu"; "missingno"; "charizard"]
       = Ok results /\
     append_found results
       = surviving_records sample_upstream ["pikachu"; "missingno"; "charizard"] /\
     keep_found results
       = surviving_records sample_upstream ["pikachu"; "missingno"; "charizard"]) /\
  (exists e,
     gather_details sample_upstream ["pikachu"; "pikachu-starter"; "mew"]
     = Raise e).
Proof.
  split.
  - apply (proj1 (batch_keeps_resolved_in_input_order sample_upstream
                    ["pikachu"; "missingno"; "charizard"])).
    repeat constructor; eexists; vm_compute; reflexivity.
  - apply (proj2 (batch_keeps_resolved_in_input_order sample_upstream
                    ["pikachu"; "pikachu-starter"; "mew"])).
    apply Exists_cons_tl, Exists_cons_hd. intros [a Ha].
    vm_compute in Ha. discriminate.
Defined.

(** For names A, B, C of which B fails, the survivors are A's record then
    C's. *)
Example survivors_skip_the_failure :
  map PokemonDetail.name
      (surviving_records sample_upstream ["pikachu"; "missingno"; "charizard"])
  = ["pikachu"; "charizard"].
Proof. vm_compute. reflexivity. Qed.

(** For a listed trainer whose roster hydrations all return, the trainer
    lookup answers the records of the roster names that resolved, in roster
    order. *)
Lemma get_trainer_pokemon_survivors
    (client : upstream) (trainer_name : string) (names : list string) :
  FAMOUS_TRAINERS !! str_lower trainer_name = Some names ->
  Forall (returns client) names ->
  get_trainer_pokemon client trainer_name = Ok (surviving_records client names).
Proof.
  intros Ht Hr. unfold get_trainer_pokemon. rewrite Ht.
  rewrite (gather_details_returns _ _ Hr). simpl.
  rewrite keep_found_resolved. reflexivity.
Qed.

(** For a listed region whose pokedex fetch answers 200, the region lookup
    answers the records of the entries of the requested slice that
    resolved, in pokedex order. *)
Lemma get_region_pokemon_survivors
    (client : upstream) (region_name : string) (info : region_info)
    (data : pokedex_data) (limit offset : Z) :
  POKEMON_REGIONS !! str_lower region_name = Some info ->
  pokedex_endpoint client (pokedex info)
    = Ok {| status_code := 200; json := Some data |} ->
  Forall (returns client)
         (py_slice (pokemon_entries data) offset (offset + limit)) ->
  get_region_pokemon client region_name limit offset
  = Ok (surviving_records client
          (py_slice (pokemon_entries data) offset (offset + limit))).
Proof.
  intros Hi He Hr. unfold get_region_pokemon. rewrite Hi. simpl. rewrite He.
  simpl. rewrite (gather_details_returns _ _ Hr). simpl.
  rewrite keep_found_resolved. reflexivity.
Qed.

(** ** The comparator *)

Section Scan.
Context {A : Type} (key : A -> Z).

(** [max_from] returns the first element of [best :: items] whose key is
    the greatest. *)
Lemma max_from_first (items : list A) : forall best : A,
  exists i : nat,
    (best :: items) !! i = Some (max_from key best items) /\
    (forall x, x ∈ best :: items -> key x <= key (max_from key best items)) /\
    (forall (j : nat) x, (j < i)%nat -> (best :: items) !! j = Some x ->
                         key x < key (max_from key best items)).
Proof.
  induction items as [|item rest IH]; intros best; simpl.
  - exists 0%nat. split; [reflexivity|]. split.
    + intros x Hx. apply list_elem_of_singleton in Hx. subst. lia.
    + intros j x Hj. lia.
  - destruct (Z.ltb_spec (key best) (key item)) as [Hlt|Hge].
    + destruct (IH item) as (i & Hi & Hall & Hbefore).
      exists (S i). split; [exact Hi|]. split.
      * intros x Hx. apply elem_of_cons in Hx as [->|Hx]; [|auto].
        specialize (Hall item (list_elem_of_here _ _)). lia.
      * intros [|j] x Hj Hx; simpl in Hx.
        -- injection Hx as <-.
           specialize (Hall item (list_elem_of_here _ _)). lia.
        -- apply (Hbefore j); [lia|exact Hx].
    + destruct (IH best) as (i & Hi & Hall & Hbefore).
      destruct i as [|i].
      * exists 0%nat. simpl in Hi. split; [exact Hi|]. split.
        -- intros x Hx. apply elem_of_cons in Hx as [->|Hx];
             [apply Hall, list_elem_of_here|].
           apply elem_of_cons in Hx as [->|Hx].
           ++ specialize (Hall best (list_elem_of_here _ _)). lia.
           ++ apply Hall. right. exact Hx.
        -- intros j x Hj. lia.
      * exists (S (S i)). simpl in Hi. split; [exact Hi|]. split.
        -- intros x Hx. apply elem_of_cons in Hx as [->|Hx];
             [apply Hall, list_elem_of_here|].
           apply elem_of_cons in Hx as [->|Hx].
           ++ specialize (Hall best (list_elem_of_here _ _)). lia.
           ++ apply Hall. right. exact Hx.
        -- intros [|[|j]] x Hj Hx; simpl in Hx.
           ++ apply (Hbefore 0%nat); [lia|exact Hx].
           ++ injection Hx as <-.
              assert (key best < key (max_from key best rest))
                by (apply (Hbefore 0%nat); [lia|reflexivity]).
              lia.
           ++ apply (Hbefore (S j)); [lia|exact Hx].
Qed.

(** [min_from] returns the first element of [best :: items] whose key is
    the least. *)
Lemma min_from_first (items : list A) : forall best : A,
  exists i : nat,
    (best :: items) !! i = Some (min_from key best items) /\
    (forall x, x ∈ best :: items -> key (min_from key best items) <= key x) /\
    (forall (j : nat) x, (j < i)%nat -> (best :: items) !! j = Some x ->
                         key (min_from key best items) < key x).
Proof.
  induction items as [|item rest IH]; intros best; simpl.
  - exists 0%nat. split; [reflexivity|]. split.
    + intros x Hx. apply list_elem_of_singleton in Hx. subst. lia.
    + intros j x Hj. lia.
  - destruct (Z.ltb_spec (key item) (key best)) as [Hlt|Hge].
    + destruct (IH item) as (i & Hi & Hall & Hbefore).
      exists (S i). split; [exact Hi|]. split.
      * intros x Hx. apply elem_of_cons in Hx as [->|Hx]; [|auto].
        specialize (Hall item (list_elem_of_here _ _)). lia.
      * intros [|j] x Hj Hx; simpl in Hx.
        -- injection Hx as <-.
           specialize (Hall item (list_elem_of_here _ _)). lia.
        -- apply (Hbefore j); [lia|exact Hx].
    + destruct (IH best) as (i & Hi & Hall & Hbefore).
      destruct i as [|i].
      * exists 0%nat. simpl in Hi. split; [exact Hi|]. split.
        -- intros x Hx. apply elem_of_cons in Hx as [->|Hx];
             [apply Hall, list_elem_of_here|].
           apply elem_of_cons in Hx as [->|Hx].
           ++ specialize (Hall best (list_elem_of_here _ _)). lia.
           ++ apply Hall. right. exact Hx.
        -- intros j x Hj. lia.
      * exists (S (S i)). simpl in Hi. split; [exact Hi|]. split.
        -- intros x Hx. apply elem_of_cons in Hx as [->|Hx];
             [apply Hall, list_elem_of_here|].
           apply elem_of_cons in Hx as [->|Hx].
           ++ specialize (Hall best (list_elem_of_here _ _)). lia.
           ++ apply Hall. right. exact Hx.
        -- intros [|[|j]] x Hj Hx; simpl in Hx.
           ++ apply (Hbefore 0%nat); [lia|exact Hx].
           ++ injection Hx as <-.
              assert (key (min_from key best rest) < key best)
                by (apply (Hbefore 0%nat); [lia|reflexivity]).
              lia.
           ++ apply (Hbefore (S j)); [lia|exact Hx].
Qed.
End Scan.

Section Extremes.
Variable value : PokemonDetail.t -> Z.

Local Abbreviation pair_of := (name_and value).

Lemma extremes_of_first (first : PokemonDetail.t) (rest : list PokemonDetail.t) :
  exists e,
    extremes_of value (first :: rest) = Ok e /\
    first_with_max value (first :: rest) (highest e) /\
    first_with_min value (first :: rest) (lowest e).
Proof.
  unfold extremes_of. simpl. eexists. split; [reflexivity|]. simpl.
  split.
  - destruct (max_from_first snd (map pair_of rest) (pair_of first))
      as (i & Hi & Hall & Hbefore).
    change (pair_of first :: map pair_of rest)
      with (pair_of <$> (first :: rest)) in *.
    rewrite list_lookup_fmap in Hi.
    destruct ((first :: rest) !! i) as [p|] eqn:Hp; [|discriminate].
    simpl in Hi. injection Hi as Hi.
    exists i, p. split; [exact Hp|]. split; [symmetry; exact Hi|].
    rewrite <- Hi in Hall, Hbefore. split.
    + intros q Hq. apply (Hall (pair_of q)).
      apply list_elem_of_fmap. exists q. split; [reflexivity|exact Hq].
    + intros j q Hj Hq.
      assert (value q < value p); [|lia].
      apply (Hbefore j (pair_of q)); [exact Hj|].
      rewrite list_lookup_fmap, Hq. reflexivity.
  - destruct (min_from_first snd (map pair_of rest) (pair_of first))
      as (i & Hi & Hall & Hbefore).
    change (pair_of first :: map pair_of rest)
      with (pair_of <$> (first :: rest)) in *.
    rewrite list_lookup_fmap in Hi.
    destruct ((first :: rest) !! i) as [p|] eqn:Hp; [|discriminate].
    simpl in Hi. injection Hi as Hi.
    exists i, p. split; [exact Hp|]. split; [symmetry; exact Hi|].
    rewrite <- Hi in Hall, Hbefore. split.
    + intros q Hq. apply (Hall (pair_of q)).
      apply list_elem_of_fmap. exists q. split; [reflexivity|exact Hq].
    + intros j q Hj Hq.
      assert (value p < value q); [|lia].
      apply (Hbefore j (pair_of q)); [exact Hj|].
      rewrite list_lookup_fmap, Hq. reflexivity.
Qed.
End Extremes.

(** The statistics loop fills one entry per listed name and leaves the other
    keys of the table alone. *)
Lemma compare_stats_entries (pokemon_list : list PokemonDetail.t)
    (stat_names : list string) :
  pokemon_list <> [] ->
  forall table : gmap string extremes,
  exists table',
    compare_stats stat_names pokemon_list table = Ok table' /\
    forall stat,
      (stat ∈ stat_names ->
       exists e, table' !! stat = Some e /\
                 extremes_of (stat_value stat) pokemon_list = Ok e) /\
      (stat ∉ stat_names -> table' !! stat = table !! stat).
Proof.
  intros Hne. induction stat_names as [|s rest IH]; intros table; simpl.
  - exists table. split; [reflexivity|]. intros stat. split.
    + intros H. apply elem_of_nil in H. contradiction.
    + reflexivity.
  - destruct pokemon_list as [|first others]; [congruence|].
    destruct (extremes_of_first (stat_value s) first others) as (e0 & He0 & _).
    rewrite He0. simpl.
    destruct (IH (<[s := e0]> table)) as (table' & Ht & Hspec).
    exists table'. split; [exact Ht|]. intros stat. split.
    + intros Hin. destruct (decide (stat ∈ rest)) as [Hr|Hr].
      * apply Hspec, Hr.
      * apply elem_of_cons in Hin as [->|Hin]; [|contradiction].
        exists e0. split; [|exact He0].
        rewrite (proj2 (Hspec s) Hr). apply lookup_insert_eq.
    + intros Hout. apply not_elem_of_cons in Hout as [Hs Hr].
      rewrite (proj2 (Hspec stat) Hr). apply lookup_insert_ne. congruence.
Qed.

(** C4: for a non-empty list of records the comparison is built, and for
    each of the six statistics hp, attack, defense, special-attack,
    special-defense and speed its highest (lowest) entry is the name and
    value of the first record in list order with the greatest (least) value,
    the value of a record being what its [stats] hold for the statistic and
    0 when they hold nothing; the same holds of the height and weight
    entries. *)
Theorem comparison_reports_first_extreme (pokemon_list : list PokemonDetail.t) :
  pokemon_list <> [] ->
  exists c,
    build_comparison pokemon_list = Ok c /\
    (forall stat,
       stat ∈ ["hp"; "attack"; "defense"; "special-attack"; "special-defense";
               "speed"] ->
       exists e,
         cmp_stats c !! stat = Some e /\
         first_with_max (fun p => default 0 (PokemonDetail.stats p !! stat))
           pokemon_list (highest e) /\
         first_with_min (fun p => default 0 (PokemonDetail.stats p !! stat))
           pokemon_list (lowest e)) /\
    (forall stat p v,
       PokemonDetail.stats p !! stat = Some v -> stat_value stat p = v) /\
    (forall stat p,
       PokemonDetail.stats p !! stat = None -> stat_value stat p = 0) /\
    first_with_max PokemonDetail.height pokemon_list (highest (cmp_height c)) /\
    first_with_min PokemonDetail.height pokemon_list (lowest (cmp_height c)) /\
    first_with_max PokemonDetail.weight pokemon_list (highest (cmp_weight c)) /\
    first_with_min PokemonDetail.weight pokemon_list (lowest (cmp_weight c)).
Proof.
  intros Hne. unfold build_comparison.
  destruct (compare_stats_entries pokemon_list STAT_NAMES Hne ∅)
    as (table & Ht & Hspec).
  destruct pokemon_list as [|first rest]; [congruence|].
  destruct (extremes_of_first PokemonDetail.height first rest)
    as (eh & Heh & Hhmax & Hhmin).
  destruct (extremes_of_first PokemonDetail.weight first rest)
    as (ew & Hew & Hwmax & Hwmin).
  rewrite Ht, Heh, Hew. unfold bind.
  eexists. split; [reflexivity|]. simpl.
  split; [|split; [|split; [|repeat split; assumption]]].
  - intros stat Hin. change (stat ∈ STAT_NAMES) in Hin.
    destruct (proj1 (Hspec stat) Hin) as (e & Hl & He).
    exists e. split; [exact Hl|].
    destruct (extremes_of_first (stat_value stat) first rest)
      as (e' & He' & Hmax & Hmin).
    rewrite He in He'. injection He' as <-.
    change (fun p : PokemonDetail.t => default 0 (PokemonDetail.stats p !! stat))
      with (stat_value stat).
    split; assumption.
  - intros stat p v H. unfold stat_value. rewrite H. reflexivity.
  - intros stat p H. unfold stat_value. rewrite H. reflexivity.
Qed.

Lemma comparison_reports_first_extreme_witness :
  exists c,
    build_comparison [hydrated pikachu_data "p.png"; hydrated charizard_data "c.png"] = Ok c /\
    (forall stat,
       stat ∈ ["hp"; "attack"; "defense"; "special-attack"; "special-defense";
               "speed"] ->
       exists e,
         cmp_stats c !! stat = Some e /\
         first_with_max (fun p => default 0 (PokemonDetail.stats p !! stat))
           [hydrated pikachu_data "p.png"; hydrated charizard_data "c.png"] (highest e) /\
         first_with_min (fun p => default 0 (PokemonDetail.stats p !! stat))
           [hydrated pikachu_data "p.png"; hydrated charizard_data "c.png"] (lowest e)) /\
    (forall stat p v,
       PokemonDetail.stats p !! stat = Some v -> stat_value stat p = v) /\
    (forall stat p,
       PokemonDetail.stats p !! stat = None -> stat_value stat p = 0) /\
    first_with_max PokemonDetail.height [hydrated pikachu_data "p.png"; hydrated charizard_data "c.png"] (highest (cmp_height c)) /\
    first_with_min PokemonDetail.height [hydrated pikachu_data "p.png"; hydrated charizard_data "c.png"] (lowest (cmp_height c)) /\
    first_with_max PokemonDetail.weight [hydrated pikachu_data "p.png"; hydrated charizard_data "c.png"] (highest (cmp_weight c)) /\
    first_with_min PokemonDetail.weight [hydrated pikachu_data "p.png"; hydrated charizard_data "c.png"] (lowest (cmp_weight c)).
Proof.
  apply (comparison_reports_first_extreme
           [hydrated pikachu_data "p.png"; hydrated charizard_data "c.png"]).
  discriminate.
Defined.

(** The speed example: pikachu 90, charizard 100. *)
Example compare_speed_example :
  exists r,
    compare_pokemon sample_upstream ["pikachu"; "charizard"] = Ok r /\
    cmp_stats (ComparisonResult.comparison r) !! "speed"
    = Some {| highest := ("charizard", 100); lowest := ("pikachu", 90) |}.
Proof. eexists. split; vm_compute; reflexivity. Qed.

(** Two records with the same greatest value: the first one is reported.
    Pikachu and mew are both 4 high. *)
Example tie_goes_to_the_first :
  exists c,
    build_comparison
      [hydrated charmander_data "a.png"; hydrated pikachu_data "b.png";
       hydrated mew_data "c.png"; hydrated charizard_data "d.png"] = Ok c /\
    lowest (cmp_height c) = ("pikachu", 4) /\
    highest (cmp_height c) = ("charizard", 17) /\
    cmp_types c !! "fire" = Some ["charmander"; "charizard"].
Proof. eexists. repeat split; vm_compute; reflexivity. Qed.

Lemma build_comparison_total (pokemon_list : list PokemonDetail.t) :
  pokemon_list <> [] -> is_ok (build_comparison pokemon_list).
Proof.
  intros Hne. unfold build_comparison.
  destruct (compare_stats_entries pokemon_list STAT_NAMES Hne ∅)
    as (table & Ht & _).
  destruct pokemon_list as [|first rest]; [congruence|].
  destruct (extremes_of_first PokemonDetail.height first rest) as (eh & Heh & _).
  destruct (extremes_of_first PokemonDetail.weight first rest) as (ew & Hew & _).
  rewrite Ht, Heh, Hew. eexists. reflexivity.
Qed.

(** What [compare_pokemon] does once the size checks pass and the batch has
    been gathered. *)
Lemma compare_pokemon_gathered (client : upstream) (names : list string) :
  (2 <= length names <= 6)%nat ->
  Forall (returns client) names ->
  compare_pokemon client names =
    match surviving_records client names with
    | [] => Raise (HTTPException 404 "None of the requested Pokemon were found")
    | _ :: _ =>
        let* comparison := build_comparison (surviving_records client names) in
        Ok (ComparisonResult.mk (surviving_records client names) comparison)
    end.
Proof.
  intros [Hlo Hhi] Hr. unfold compare_pokemon.
  destruct (Nat.ltb_spec (length names) 2) as [?|_]; [lia|].
  destruct (Nat.ltb_spec 6 (length names)) as [?|_]; [lia|].
  rewrite (gather_details_returns _ _ Hr). simpl.
  rewrite append_found_keep_found, keep_found_resolved. reflexivity.
Qed.

(** A returned comparison is the one built from the returned records, of
    which there is at least one. *)
Lemma compare_pokemon_ok_inv (client : upstream) (names : list string)
    (r : ComparisonResult.t) :
  compare_pokemon client names = Ok r ->
  ComparisonResult.pokemon r <> [] /\
  build_comparison (ComparisonResult.pokemon r) = Ok (ComparisonResult.comparison r).
Proof.
  unfold compare_pokemon.
  destruct (length names <? 2)%nat; [discriminate|].
  destruct (6 <? length names)%nat; [discriminate|].
  destruct (gather_details client names) as [results|e]; [|discriminate].
  simpl. destruct (append_found results) as [|p l] eqn:E; [discriminate|].
  destruct (build_comparison (p :: l)) as [c|e] eqn:B; [|discriminate].
  simpl. intros H. injection H as <-. simpl. split; [discriminate|exact B].
Qed.

(** C2, refuted: of two requested names exactly one resolves, the other is
    not found, and the comparison is returned, over the one record. *)
Lemma compare_returns_with_one_resolved :
  get_pokemon_details sample_upstream (Name "missingno") = Ok None /\
  exists r,
    compare_pokemon sample_upstream ["pikachu"; "missingno"] = Ok r /\
    map PokemonDetail.name (ComparisonResult.pokemon r) = ["pikachu"] /\
    length (surviving_records sample_upstream ["pikachu"; "missingno"]) = 1%nat.
Proof.
  split; [vm_compute; reflexivity|].
  eexists. repeat split; vm_compute; reflexivity.
Qed.

(** C2, amended: for two to six requested names whose hydrations return,
    the comparison fails exactly when none of them resolves, and then with
    status 404; when at least one resolves, be it a single one, it returns
    the comparison built over the resolved records. *)
Theorem compare_fails_only_when_none_resolve
    (client : upstream) (names : list string) :
  (2 <= length names <= 6)%nat ->
  Forall (returns client) names ->
  (surviving_records client names = [] ->
   compare_pokemon client names
   = Raise (HTTPException 404 "None of the requested Pokemon were found")) /\
  (surviving_records client names <> [] ->
   exists c,
     build_comparison (surviving_records client names) = Ok c /\
     compare_pokemon client names
     = Ok (ComparisonResult.mk (surviving_records client names) c)).
Proof.
  intros Hlen Hr. rewrite (compare_pokemon_gathered _ _ Hlen Hr). split.
  - intros ->. reflexivity.
  - intros Hne. destruct (build_comparison_total _ Hne) as [c Hc].
    exists c. split; [exact Hc|]. rewrite Hc.
    destruct (surviving_records client names); [congruence|reflexivity].
Qed.

Lemma compare_fails_only_when_none_resolve_witness :
  (surviving_records sample_upstream ["pikachu"; "missingno"] = [] ->
   compare_pokemon sample_upstream ["pikachu"; "missingno"]
   = Raise (HTTPException 404 "None of the requested Pokemon were found")) /\
  (surviving_records sample_upstream ["pikachu"; "missingno"] <> [] ->
   exists c,
     build_comparison (surviving_records sample_upstream ["pikachu"; "missingno"])
       = Ok c /\
     compare_pokemon sample_upstream ["pikachu"; "missingno"]
     = Ok (ComparisonResult.mk
             (surviving_records sample_upstream ["pikachu"; "missingno"]) c)).
Proof.
  apply (compare_fails_only_when_none_resolve sample_upstream
           ["pikachu"; "missingno"]).
  - simpl. lia.
  - repeat constructor; eexists; vm_compute; reflexivity.
Defined.

(** When no requested name resolves the comparison is refused with 404. *)
Example compare_none_resolved :
  compare_pokemon sample_upstream ["missingno"; "glitch"]
  = Raise (HTTPException 404 "None of the requested Pokemon were found").
Proof. vm_compute. reflexivity. Qed.

(** The size checks come first, with status 400. *)
Lemma compare_pokemon_size_checks (client : upstream) (names : list string) :
  ((length names < 2)%nat ->
   compare_pokemon client names
   = Raise (HTTPException 400 "Please provide at least 2 Pokemon to compare")) /\
  ((6 < length names)%nat ->
   compare_pokemon client names
   = Raise (HTTPException 400 "You can compare a maximum of 6 Pokemon")).
Proof.
  unfold compare_pokemon. split; intros H.
  - destruct (Nat.ltb_spec (length names) 2); [reflexivity|lia].
  - destruct (Nat.ltb_spec (length names) 2); [lia|].
    destruct (Nat.ltb_spec 6 (length names)); [reflexivity|lia].
Qed.

(** ** Non-success statuses *)

(** C9, refuted: kanto is a known region, its pokedex fetch answers 404, and
    the region lookup fails with status 500, not with a not-found outcome. *)
Lemma region_lookup_answers_500 :
  is_Some (POKEMON_REGIONS !! "kanto") /\
  pokedex_endpoint no_pokedex_upstream "kanto"
    = Ok {| status_code := 404; json := None |} /\
  get_region_pokemon no_pokedex_upstream "kanto" 20 0
    = Raise (HTTPException 500 "Failed to fetch region data").
Proof.
  split; [eexists; vm_compute; reflexivity|].
  split; vm_compute; reflexivity.
Qed.

(** C9, amended: the two fetchers map a non-success status to [None], the
    region lookup does not: for a known region whose pokedex fetch answers
    with a status other than 200 it fails with status 500. Not-found is
    what it answers for a region that is not in the table; for a known
    region whose pokedex request is answered, whatever the status, it
    never fails with status 404. *)
Theorem non_success_status_handling (client : upstream) :
  (forall s r,
     pokemon_endpoint client (str_lower s) = Ok r ->
     status_code r <> 200 ->
     fetch_pokemon_data client (Name s) = None) /\
  (forall s r,
     pokemon_species_endpoint client (str_lower s) = Ok r ->
     status_code r <> 200 ->
     fetch_pokemon_species client (Name s) = None) /\
  (forall region_name info r limit offset,
     POKEMON_REGIONS !! str_lower region_name = Some info ->
     pokedex_endpoint client (pokedex info) = Ok r ->
     status_code r <> 200 ->
     get_region_pokemon client region_name limit offset
     = Raise (HTTPException 500 "Failed to fetch region data")) /\
  (forall region_name limit offset,
     POKEMON_REGIONS !! str_lower region_name = None ->
     get_region_pokemon client region_name limit offset
     = Raise (HTTPException 404
                ("Region " +:+ str_lower region_name +:+ " not found"))) /\
  (forall region_name info r limit offset detail,
     POKEMON_REGIONS !! str_lower region_name = Some info ->
     pokedex_endpoint client (pokedex info) = Ok r ->
     get_region_pokemon client region_name limit offset
     <> Raise (HTTPException 404 detail)).
Proof.
  split; [|split; [|split; [|split]]].
  - intros s r Hr Hs. unfold fetch_pokemon_data, lower, bind, try_except.
    rewrite Hr. destruct (Z.eqb_spec (status_code r) 200); [contradiction|].
    reflexivity.
  - intros s r Hr Hs. unfold fetch_pokemon_species, lower, bind, try_except.
    rewrite Hr. destruct (Z.eqb_spec (status_code r) 200); [contradiction|].
    reflexivity.
  - intros region_name info r limit offset Hi Hr Hs.
    unfold get_region_pokemon. rewrite Hi. simpl. rewrite Hr. simpl.
    destruct (Z.eqb_spec (status_code r) 200); [contradiction|]. reflexivity.
  - intros region_name limit offset Hi.
    unfold get_region_pokemon. rewrite Hi. reflexivity.
  - intros region_name info r limit offset detail Hi Hr.
    unfold get_region_pokemon. rewrite Hi. simpl. rewrite Hr. simpl.
    destruct (negb (status_code r =? 200)); [discriminate|].
    unfold response_json. destruct (json r) as [data|]; [|discriminate].
    simpl.
    destruct (gather_details client
                (py_slice (pokemon_entries data) offset (offset + limit)))
      as [results|e] eqn:G; simpl; [discriminate|].
    intros H. injection H as ->. unfold gather_details in G.
    assert (Hin : exists name,
               get_pokemon_details client (Name name)
               = Raise (HTTPException 404 detail)).
    { revert G. generalize (py_slice (pokemon_entries data) offset
                              (offset + limit)).
      induction l as [|name l IH]; simpl; [discriminate|].
      destruct (get_pokemon_details client (Name name)) as [o|e] eqn:E; simpl.
      - destruct (gather _) as [others|e]; simpl; [discriminate|].
        intros H. apply IH. exact H.
      - intros H. injection H as ->. exists name. exact E. }
    destruct Hin as (name & Hname).
    pose proof (get_pokemon_details_cases client (Name name)) as C.
    destruct (fetch_pokemon_data client (Name name)) as [d|]; [|congruence].
    destruct (pd_front_default d); congruence.
Qed.

Lemma non_success_status_handling_witness :
  fetch_pokemon_data no_pokedex_upstream (Name "MissingNo") = None /\
  fetch_pokemon_species no_pokedex_upstream (Name "MissingNo") = None /\
  get_region_pokemon no_pokedex_upstream "Kanto" 20 0
  = Raise (HTTPException 500 "Failed to fetch region data") /\
  get_region_pokemon no_pokedex_upstream "Orre" 20 0
  = Raise (HTTPException 404 ("Region " +:+ str_lower "Orre" +:+ " not found")) /\
  get_region_pokemon sample_upstream "Kanto" 20 0
  <> Raise (HTTPException 404 "Region kanto not found").
Proof.
  destruct (non_success_status_handling no_pokedex_upstream)
    as (H1 & H2 & H3 & H4 & _).
  destruct (non_success_status_handling sample_upstream)
    as (_ & _ & _ & _ & H5).
  split; [|split; [|split; [|split]]].
  - apply (H1 "MissingNo" {| status_code := 404; json := None |});
      [vm_compute; reflexivity | simpl; lia].
  - apply (H2 "MissingNo" {| status_code := 404; json := None |});
      [vm_compute; reflexivity | simpl; lia].
  - apply (H3 "Kanto" {| generation := "generation-i"; pokedex := "kanto" |}
              {| status_code := 404; json := None |});
      [vm_compute; reflexivity | vm_compute; reflexivity | simpl; lia].
  - apply (H4 "Orre"). vm_compute. reflexivity.
  - apply (H5 "Kanto" {| generation := "generation-i"; pokedex := "kanto" |}
              {| status_code := 200;
                 json := Some {| pokemon_entries :=
                                   ["bulbasaur"; "charmander"; "squirtle";
                                    "pikachu"] |} |});
      vm_compute; reflexivity.
Defined.

(** An unknown region is the not-found case of the region lookup. *)
Example unknown_region_is_404 :
  get_region_pokemon sample_upstream "Orre" 20 0
  = Raise (HTTPException 404 "Region orre not found").
Proof. vm_compute. reflexivity. Qed.

(** ** The team store *)

Lemma team_of_initialised (user_id : string) (teams : team_store) (u : string) :
  team_of (initialised user_id teams) u = team_of teams u.
Proof.
  unfold initialised, team_of.
  destruct (teams !! user_id) as [t|] eqn:E; [reflexivity|].
  destruct (decide (user_id = u)) as [->|Hne].
  - rewrite lookup_insert_eq, E. reflexivity.
  - rewrite lookup_insert_ne by exact Hne. reflexivity.
Qed.

Lemma lookup_initialised (user_id : string) (teams : team_store) :
  initialised user_id teams !! user_id = Some (team_of teams user_id).
Proof.
  unfold initialised, team_of.
  destruct (teams !! user_id) as [t|] eqn:E; simpl.
  - exact E.
  - apply lookup_insert_eq.
Qed.

(** [add_to_team], with the reads and writes of the dictionary carried
    out. *)
Lemma add_to_team_unfold (client : upstream) (user_id pokemon_name : string)
    (teams : team_store) :
  add_to_team client user_id pokemon_name teams =
    let teams0 := initialised user_id teams in
    let team := team_of teams user_id in
    if (6 <=? length team)%nat then
      (teams0, Raise (HTTPException 400 FULL_TEAM))
    else if bool_decide (str_lower pokemon_name ∈ map PokemonDetail.name team) then
      (teams0, Raise (HTTPException 400
                 ("Pokemon " +:+ pokemon_name +:+ " is already in your team")))
    else
      match get_pokemon_details client (Name pokemon_name) with
      | Raise e => (teams0, Raise e)
      | Ok None =>
          (teams0, Raise (HTTPException 404
                     ("Pokemon " +:+ pokemon_name +:+ " not found")))
      | Ok (Some p) =>
          (<[user_id := (team ++ [p])%list]> teams0,
           Ok (TeamResponse.mk user_id (team ++ [p])%list
                 (length (team ++ [p])%list)))
      end.
Proof.
  cbv zeta.
  assert (E : hbind (contains user_id)
                (fun known => if negb known then setitem user_id [] else ret tt)
                teams
              = (initialised user_id teams, Ok tt)).
  { unfold hbind, contains, setitem, ret, initialised.
    destruct (teams !! user_id); reflexivity. }
  unfold add_to_team.
  unfold hbind at 1. unfold hbind at 1 in E.
  destruct (contains user_id teams) as [teams1 [known|e]] eqn:C;
    [|unfold contains in C; discriminate].
  unfold hbind at 1. rewrite E.
  unfold hbind at 1. unfold getitem at 1. rewrite lookup_initialised.
  destruct (6 <=? length (team_of teams user_id))%nat; [reflexivity|].
  unfold hbind at 1. unfold getitem at 1. rewrite lookup_initialised.
  destruct (bool_decide _); [reflexivity|].
  unfold hbind at 1. unfold await.
  destruct (get_pokemon_details client (Name pokemon_name)) as [[p|]|e];
    try reflexivity.
  unfold hbind, getitem, setitem, ret.
  rewrite lookup_initialised, lookup_insert_eq. reflexivity.
Qed.

Lemma get_team_unfold (user_id : string) (teams : team_store) :
  get_team user_id teams
  = (teams, Ok (TeamResponse.mk user_id (team_of teams user_id)
                  (length (team_of teams user_id)))).
Proof.
  unfold get_team, hbind, contains, getitem, ret, team_of.
  destruct (teams !! user_id) as [[|p t]|] eqn:E;
    simpl; rewrite ?E; simpl; rewrite ?E; reflexivity.
Qed.

(** [remove_from_team], with the reads and writes carried out. *)
Lemma remove_from_team_unfold (user_id pokemon_name : string)
    (teams : team_store) :
  remove_from_team user_id pokemon_name teams =
    match team_of teams user_id with
    | [] =>
        (teams, Raise (HTTPException 404
                  ("User " +:+ user_id +:+ " doesn't have a team yet")))
    | (_ :: _) as team =>
        match find_member (str_lower pokemon_name) team 0 with
        | Some i =>
            (<[user_id := delete i team]> teams,
             Ok (TeamResponse.mk user_id (delete i team)
                   (length (delete i team))))
        | None =>
            (teams, Raise (HTTPException 404
                      ("Pokemon " +:+ str_lower pokemon_name
                       +:+ " not found in your team")))
        end
    end.
Proof.
  unfold remove_from_team, team_of, hbind, contains, getitem, setitem, ret, raise.
  destruct (teams !! user_id) as [[|p t]|] eqn:E;
    cbn -[find_member str_lower String.append]; rewrite ?E;
    cbn -[find_member str_lower String.append]; rewrite ?E;
    try reflexivity.
  destruct (find_member (str_lower pokemon_name) (p :: t) 0) as [i|];
    [|reflexivity].
  rewrite lookup_insert_eq. reflexivity.
Qed.

(** C7: when [add_to_team] raises, for whatever reason, every user's list of
    stored records is the one from before the call; the only trace the call
    leaves is the empty entry created for a user the dictionary did not
    know. The three refusals of the handler are such failures: a team of six
    (400), a lower-cased name already among the members' names (400), a name
    that does not resolve (404). *)
Theorem failed_add_keeps_team
    (client : upstream) (user_id pokemon_name : string)
    (teams teams' : team_store) (e : exn) :
  add_to_team client user_id pokemon_name teams = (teams', Raise e) ->
  (forall u, team_of teams' u = team_of teams u) /\
  teams' = initialised user_id teams /\
  ((6 <= length (team_of teams user_id))%nat ->
   e = HTTPException 400 FULL_TEAM) /\
  ((length (team_of teams user_id) < 6)%nat ->
   str_lower pokemon_name ∈ map PokemonDetail.name (team_of teams user_id) ->
   e = HTTPException 400
         ("Pokemon " +:+ pokemon_name +:+ " is already in your team")) /\
  ((length (team_of teams user_id) < 6)%nat ->
   str_lower pokemon_name ∉ map PokemonDetail.name (team_of teams user_id) ->
   get_pokemon_details client (Name pokemon_name) = Ok None ->
   e = HTTPException 404 ("Pokemon " +:+ pokemon_name +:+ " not found")).
Proof.
  rewrite add_to_team_unfold. cbv zeta. intros H.
  assert (Hs : teams' = initialised user_id teams /\
               ((6 <= length (team_of teams user_id))%nat ->
                e = HTTPException 400 FULL_TEAM) /\
               ((length (team_of teams user_id) < 6)%nat ->
                str_lower pokemon_name
                  ∈ map PokemonDetail.name (team_of teams user_id) ->
                e = HTTPException 400
                      ("Pokemon " +:+ pokemon_name +:+ " is already in your team")) /\
               ((length (team_of teams user_id) < 6)%nat ->
                str_lower pokemon_name
                  ∉ map PokemonDetail.name (team_of teams user_id) ->
                get_pokemon_details client (Name pokemon_name) = Ok None ->
                e = HTTPException 404
                      ("Pokemon " +:+ pokemon_name +:+ " not found"))).
  { destruct (Nat.leb_spec 6 (length (team_of teams user_id))) as [Hfull|Hroom].
    - injection H as <- <-. repeat split; try reflexivity; intros; lia.
    - destruct (bool_decide_reflect
                  (str_lower pokemon_name
                     ∈ map PokemonDetail.name (team_of teams user_id)))
        as [Hdup|Hnew].
      + injection H as <- <-. repeat split; try reflexivity; intros;
          try lia; contradiction.
      + destruct (get_pokemon_details client (Name pokemon_name))
          as [[p|]|e'] eqn:G; [discriminate| |].
        * injection H as <- <-. repeat split; try reflexivity; intros;
            try lia; contradiction.
        * injection H as <- <-. repeat split; try reflexivity; intros;
            try lia; try contradiction; discriminate. }
  destruct Hs as (-> & Hs). split; [|split; [reflexivity|exact Hs]].
  intros u. apply team_of_initialised.
Qed.

Lemma failed_add_keeps_team_witness :
  (forall u,
     team_of (initialised "red" (run_ops red_team_ops)) u
     = team_of (run_ops red_team_ops) u) /\
  (forall u, team_of (initialised "blue" ∅) u = team_of ∅ u) /\
  (forall u,
     team_of (initialised "red" (run_ops [OpAdd sample_upstream "red" "pikachu"])) u
     = team_of (run_ops [OpAdd sample_upstream "red" "pikachu"]) u).
Proof.
  split; [|split].
  - apply (failed_add_keeps_team sample_upstream "red" "mew"
             (run_ops red_team_ops) (initialised "red" (run_ops red_team_ops))
             (HTTPException 400 FULL_TEAM)).
    vm_compute. reflexivity.
  - apply (failed_add_keeps_team sample_upstream "blue" "missingno"
             ∅ (initialised "blue" ∅)
             (HTTPException 404 "Pokemon missingno not found")).
    vm_compute. reflexivity.
  - apply (failed_add_keeps_team sample_upstream "red" "PIKACHU"
             (run_ops [OpAdd sample_upstream "red" "pikachu"])
             (initialised "red" (run_ops [OpAdd sample_upstream "red" "pikachu"]))
             (HTTPException 400 "Pokemon PIKACHU is already in your team")).
    vm_compute. reflexivity.
Defined.

(** A failed add for an unknown user does leave an empty entry behind. *)
Example failed_add_creates_entry :
  (add_to_team sample_upstream "blue" "missingno" ∅).1 !! "blue" = Some [] /\
  (∅ : team_store) !! "blue" = None.
Proof. split; vm_compute; reflexivity. Qed.

(** *** The size cap *)

Lemma team_of_insert (teams : team_store) (user_id u : string)
    (team : list PokemonDetail.t) :
  team_of (<[user_id := team]> teams) u
  = if decide (user_id = u) then team else team_of teams u.
Proof.
  unfold team_of. destruct (decide (user_id = u)) as [->|Hne].
  - rewrite lookup_insert_eq. reflexivity.
  - rewrite lookup_insert_ne by exact Hne. reflexivity.
Qed.

(** [team.pop(i)] never makes the list longer. *)
Lemma length_delete_le {A} (l : list A) : forall i : nat,
  (length (delete i l) <= length l)%nat.
Proof.
  induction l as [|a l IH]; intros [|i]; simpl; try lia.
  specialize (IH i). lia.
Qed.

Lemma add_to_team_capped (client : upstream) (user_id pokemon_name : string)
    (teams : team_store) :
  capped teams -> capped (add_to_team client user_id pokemon_name teams).1.
Proof.
  intros Hc u. rewrite add_to_team_unfold. cbv zeta.
  destruct (Nat.leb_spec 6 (length (team_of teams user_id))) as [Hfull|Hroom];
    [simpl; rewrite team_of_initialised; apply Hc|].
  destruct (bool_decide _);
    [simpl; rewrite team_of_initialised; apply Hc|].
  destruct (get_pokemon_details client (Name pokemon_name)) as [[p|]|e];
    simpl; try (rewrite team_of_initialised; apply Hc).
  rewrite team_of_insert. destruct (decide (user_id = u)).
  - rewrite length_app. simpl. lia.
  - rewrite team_of_initialised. apply Hc.
Qed.

Lemma remove_from_team_capped (user_id pokemon_name : string)
    (teams : team_store) :
  capped teams -> capped (remove_from_team user_id pokemon_name teams).1.
Proof.
  intros Hc u. rewrite remove_from_team_unfold.
  destruct (team_of teams user_id) as [|p t] eqn:E; [apply Hc|].
  cbv zeta.
  destruct (find_member (str_lower pokemon_name) (p :: t) 0) as [i|];
    [|apply Hc].
  simpl fst. rewrite team_of_insert. destruct (decide (user_id = u)); [|apply Hc].
  pose proof (length_delete_le (p :: t) i) as Hd.
  specialize (Hc user_id). rewrite E in Hc. lia.
Qed.

Lemma run_op_capped (teams : team_store) (op : team_op) :
  capped teams -> capped (run_op teams op).
Proof.
  intros Hc. destruct op as [u|client u n|u n]; simpl.
  - rewrite get_team_unfold. exact Hc.
  - apply add_to_team_capped, Hc.
  - apply remove_from_team_capped, Hc.
Qed.

Lemma foldl_run_op_capped (ops : list team_op) : forall teams,
  capped teams -> capped (foldl run_op teams ops).
Proof.
  induction ops as [|op ops IH]; intros teams Hc; simpl; [exact Hc|].
  apply IH, run_op_capped, Hc.
Qed.

(** C8: after any sequence of get, add and remove operations from the empty
    store, run one after the other, every user's team has at most six
    members; and an add for a user whose team has six members is refused
    with status 400. *)
Theorem teams_never_exceed_six (ops : list team_op) :
  (forall u, (length (team_of (run_ops ops) u) <= 6)%nat) /\
  (forall client u pokemon_name,
     length (team_of (run_ops ops) u) = 6%nat ->
     (add_to_team client u pokemon_name (run_ops ops)).2
     = Raise (HTTPException 400 FULL_TEAM)).
Proof.
  split.
  - apply foldl_run_op_capped. intros u. unfold team_of.
    rewrite lookup_empty. simpl. lia.
  - intros client u pokemon_name Hlen. rewrite add_to_team_unfold. cbv zeta.
    rewrite Hlen. reflexivity.
Qed.

Lemma teams_never_exceed_six_witness :
  length (team_of (run_ops red_team_ops) "red") = 6%nat /\
  (length (team_of (run_ops red_team_ops) "red") <= 6)%nat /\
  (add_to_team sample_upstream "red" "mew" (run_ops red_team_ops)).2
  = Raise (HTTPException 400 FULL_TEAM).
Proof.
  split; [vm_compute; reflexivity|]. split.
  - apply (proj1 (teams_never_exceed_six red_team_ops) "red").
  - apply (proj2 (teams_never_exceed_six red_team_ops) sample_upstream "red" "mew").
    vm_compute. reflexivity.
Defined.

(** *** Uniqueness of member names *)

(** C6, evaluated where it fails: pikachu is added by name, then by its
    identifier 25. The second request passes the membership test, since
    the string 25 is not a member's name, and the record it appends is
    named pikachu: the team holds two members of that name. The same
    request under a differently-cased name is refused. *)
Lemma add_by_identifier_duplicates_member :
  (add_to_team sample_upstream "red" "PIKACHU"
     (run_ops [OpAdd sample_upstream "red" "pikachu"])).2
  = Raise (HTTPException 400 "Pokemon PIKACHU is already in your team") /\
  is_ok (add_to_team sample_upstream "red" "25"
           (run_ops [OpAdd sample_upstream "red" "pikachu"])).2 /\
  member_names
    (team_of (run_ops [OpAdd sample_upstream "red" "pikachu";
                       OpAdd sample_upstream "red" "25"]) "red")
  = ["pikachu"; "pikachu"] /\
  ~ NoDup (member_names
             (team_of (run_ops [OpAdd sample_upstream "red" "pikachu";
                                OpAdd sample_upstream "red" "25"]) "red")).
Proof.
  assert (E : member_names
                (team_of (run_ops [OpAdd sample_upstream "red" "pikachu";
                                   OpAdd sample_upstream "red" "25"]) "red")
              = ["pikachu"; "pikachu"]) by (vm_compute; reflexivity).
  split; [vm_compute; reflexivity|].
  split; [eexists; vm_compute; reflexivity|].
  split; [exact E|].
  rewrite E. intros H. apply NoDup_cons in H as [Hin _].
  apply Hin. left.
Qed.

(** * Further properties of the code *)

(** ** Strings and fetchers *)

Lemma lower_ascii_idempotent (c : ascii) :
  lower_ascii (lower_ascii c) = lower_ascii c.
Proof.
  destruct c as [[] [] [] [] [] [] [] []]; vm_compute; reflexivity.
Qed.

Lemma str_lower_idempotent (s : string) : str_lower (str_lower s) = str_lower s.
Proof.
  induction s as [|c s IH]; simpl; [reflexivity|].
  rewrite lower_ascii_idempotent, IH. reflexivity.
Qed.

(** The core fetcher answers a payload exactly when it was given a string
    and upstream answered status 200 with a decodable body for the
    lower-cased key; a transport fault, another status, an undecodable body
    or an integer key all give [None]. The species fetcher does the same
    on its endpoint. *)
Theorem fetchers_answer_iff_200 (client : upstream) (x : name_or_id) :
  (forall d,
     fetch_pokemon_data client x = Some d <->
     exists s, x = Name s /\
       pokemon_endpoint client (str_lower s)
       = Ok {| status_code := 200; json := Some d |}) /\
  (forall sd,
     fetch_pokemon_species client x = Some sd <->
     exists s, x = Name s /\
       pokemon_species_endpoint client (str_lower s)
       = Ok {| status_code := 200; json := Some sd |}).
Proof.
  split; intros d; split.
  - unfold fetch_pokemon_data, try_except, bind, lower, response_json.
    destruct x as [s|n]; [|discriminate].
    destruct (pokemon_endpoint client (str_lower s)) as [[st js]|e] eqn:E;
      [|discriminate].
    simpl. destruct (Z.eqb_spec st 200) as [->|]; [|discriminate].
    destruct js as [d'|]; [|discriminate].
    intros H. injection H as ->. exists s. split; [reflexivity|exact E].
  - intros (s & -> & H).
    unfold fetch_pokemon_data, try_except, bind, lower. rewrite H. reflexivity.
  - unfold fetch_pokemon_species, try_except, bind, lower, response_json.
    destruct x as [s|n]; [|discriminate].
    destruct (pokemon_species_endpoint client (str_lower s)) as [[st js]|e] eqn:E;
      [|discriminate].
    simpl. destruct (Z.eqb_spec st 200) as [->|]; [|discriminate].
    destruct js as [d'|]; [|discriminate].
    intros H. injection H as ->. exists s. split; [reflexivity|exact E].
  - intros (s & -> & H).
    unfold fetch_pokemon_species, try_except, bind, lower. rewrite H. reflexivity.
Qed.

Lemma fetch_pokemon_data_lower (client : upstream) (s : string) :
  fetch_pokemon_data client (Name (str_lower s))
  = fetch_pokemon_data client (Name s).
Proof.
  unfold fetch_pokemon_data, lower. rewrite str_lower_idempotent. reflexivity.
Qed.

Lemma get_pokemon_details_lower (client : upstream) (s : string) :
  get_pokemon_details client (Name (str_lower s))
  = get_pokemon_details client (Name s).
Proof.
  unfold get_pokemon_details. rewrite fetch_pokemon_data_lower. reflexivity.
Qed.

(** The hydrator raises nothing but the two sprite errors. *)
Lemma get_pokemon_details_raise (client : upstream) (x : name_or_id) (e : exn) :
  get_pokemon_details client x = Raise e ->
  e = KeyError "front_default" \/ e = ValidationError "sprite_url".
Proof.
  intros H. pose proof (get_pokemon_details_cases client x) as C.
  destruct (fetch_pokemon_data client x) as [d|]; [|congruence].
  destruct (pd_front_default d); [left|right|]; congruence.
Qed.

(** The hydration never consults what the species endpoint serves: two
    providers with the same core endpoint give the same outcome for every
    input. *)
Theorem hydration_ignores_species_endpoint
    (client client' : upstream) (x : name_or_id) :
  (forall key, pokemon_endpoint client key = pokemon_endpoint client' key) ->
  get_pokemon_details client x = get_pokemon_details client' x.
Proof.
  intros H.
  assert (F : fetch_pokemon_data client x = fetch_pokemon_data client' x).
  { unfold fetch_pokemon_data, bind. destruct (lower x) as [key|e]; [|reflexivity].
    rewrite H. reflexivity. }
  pose proof (get_pokemon_details_cases client x) as C.
  pose proof (get_pokemon_details_cases client' x) as C'.
  rewrite <- F in C'. destruct (fetch_pokemon_data client x) as [d|];
    [|congruence].
  destruct (pd_front_default d); congruence.
Qed.

Lemma hydration_ignores_species_endpoint_witness :
  get_pokemon_details sample_upstream (Name "mew")
  = get_pokemon_details no_species_upstream (Name "mew").
Proof.
  apply (hydration_ignores_species_endpoint sample_upstream no_species_upstream
           (Name "mew")).
  intros key. reflexivity.
Defined.

(** The single-entity lookup answers an HTTP error exactly when the core
    fetch gave nothing, and then 404 with the name as it was requested;
    it answers a record exactly when the hydration does. *)
Theorem get_pokemon_not_found_iff (client : upstream) (name : string) :
  (forall code detail,
     get_pokemon client name = Raise (HTTPException code detail) <->
     fetch_pokemon_data client (Name name) = None /\
     code = 404 /\ detail = "Pokemon " +:+ name +:+ " not found") /\
  (forall p,
     get_pokemon client name = Ok p <->
     get_pokemon_details client (Name name) = Ok (Some p)).
Proof.
  unfold get_pokemon.
  pose proof (get_pokemon_details_cases client (Name name)) as C.
  destruct (fetch_pokemon_data client (Name name)) as [d|];
    [destruct (pd_front_default d)|];
    rewrite C; cbn [bind]; split; intros; split; intros; intuition congruence.
Qed.

(** ** Field extraction *)

Lemma str_replace_removes (old new : ascii) (s : string) :
  old <> new -> ~ occurs_in old (str_replace old new s).
Proof.
  intros Hne. unfold occurs_in. induction s as [|c s IH]; simpl; [tauto|].
  intros [H|H]; [|exact (IH H)].
  destruct (Ascii.eqb_spec c old) as [->|Hc]; congruence.
Qed.

Lemma str_replace_length (old new : ascii) (s : string) :
  String.length (str_replace old new s) = String.length s.
Proof. induction s as [|c s IH]; simpl; congruence. Qed.

Lemma str_replace_absent (old new : ascii) (s : string) :
  ~ occurs_in old s -> str_replace old new s = s.
Proof.
  unfold occurs_in. induction s as [|c s IH]; simpl; [reflexivity|].
  intros H. destruct (Ascii.eqb_spec c old) as [->|Hc]; [tauto|].
  rewrite IH; tauto.
Qed.

(** A returned record copies identifier, name, types, height and weight
    from the core payload; its abilities are the payload's, one for one and
    of the same lengths, with every hyphen replaced by a space, so that no
    ability of a record contains a hyphen and an ability without one is
    kept as it is. *)
Theorem hydrated_record_fields
    (client : upstream) (x : name_or_id) (p : PokemonDetail.t) :
  get_pokemon_details client x = Ok (Some p) ->
  exists d,
    fetch_pokemon_data client x = Some d /\
    PokemonDetail.id p = pd_id d /\
    PokemonDetail.name p = pd_name d /\
    PokemonDetail.types p = pd_types d /\
    PokemonDetail.height p = pd_height d /\
    PokemonDetail.weight p = pd_weight d /\
    pd_front_default d = SpriteStr (PokemonDetail.sprite_url p) /\
    PokemonDetail.stats p = dict_of_pairs (pd_stats d) /\
    length (PokemonDetail.abilities p) = length (pd_abilities d) /\
    (forall (i : nat) a,
       pd_abilities d !! i = Some a ->
       exists a',
         PokemonDetail.abilities p !! i = Some a' /\
         String.length a' = String.length a /\
         ~ occurs_in hyphen a' /\
         (~ occurs_in hyphen a -> a' = a)).
Proof.
  intros H. apply get_pokemon_details_some in H as (d & url & Hd & Hs & ->).
  exists d. simpl. repeat split; try assumption; try reflexivity.
  - apply length_map.
  - intros i a Ha. exists (str_replace hyphen space a).
    repeat split.
    + change (map (str_replace hyphen space) (pd_abilities d))
        with (str_replace hyphen space <$> pd_abilities d).
      rewrite list_lookup_fmap, Ha. reflexivity.
    + apply str_replace_length.
    + apply str_replace_removes. discriminate.
    + apply str_replace_absent.
Qed.

Lemma hydrated_record_fields_witness :
  exists d,
    fetch_pokemon_data sample_upstream (Name "Eevee") = Some d /\
    PokemonDetail.id (hydrated eevee_data "https://raw.githubusercontent.com/PokeAPI/sprites/master/sprites/pokemon/133.png") = pd_id d.
Proof.
  destruct (hydrated_record_fields sample_upstream (Name "Eevee")
              (hydrated eevee_data "https://raw.githubusercontent.com/PokeAPI/sprites/master/sprites/pokemon/133.png"))
    as (d & Hd & Hid & _); [vm_compute; reflexivity|].
  exists d. split; assumption.
Defined.

Lemma foldl_insert_other (k : string) (l : list (string * Z)) :
  forall d : gmap string Z,
    k ∉ l.*1 ->
    foldl (fun d kv => <[kv.1 := kv.2]> d) d l !! k = d !! k.
Proof.
  induction l as [|[k' v'] l IH]; intros d Hk; simpl; [reflexivity|].
  simpl in Hk. apply not_elem_of_cons in Hk as [Hne Hk].
  rewrite IH by exact Hk. apply lookup_insert_ne. congruence.
Qed.

Lemma foldl_insert_lookup (k : string) (v : Z) (l : list (string * Z)) :
  forall d : gmap string Z,
    foldl (fun d kv => <[kv.1 := kv.2]> d) d l !! k = Some v ->
    (exists l1 l2, l = (l1 ++ (k, v) :: l2)%list /\ k ∉ l2.*1) \/
    (d !! k = Some v /\ k ∉ l.*1).
Proof.
  induction l as [|[k' v'] l IH]; intros d H; simpl in H.
  - right. split; [exact H|]. simpl. apply not_elem_of_nil.
  - destruct (IH _ H) as [(l1 & l2 & -> & Hk) | (Hd & Hk)].
    + left. exists ((k', v') :: l1), l2. split; [reflexivity|exact Hk].
    + destruct (decide (k' = k)) as [->|Hne].
      * simpl in Hd. rewrite lookup_insert_eq in Hd. injection Hd as ->.
        left. exists [], l. split; [reflexivity|exact Hk].
      * simpl in Hd. rewrite lookup_insert_ne in Hd by exact Hne.
        right. split; [exact Hd|]. simpl. apply not_elem_of_cons.
        split; [congruence|exact Hk].
Qed.

Lemma last_pair_of_key (k : string) (l : list (string * Z)) :
  k ∈ l.*1 ->
  exists v l1 l2, l = (l1 ++ (k, v) :: l2)%list /\ k ∉ l2.*1.
Proof.
  induction l as [|[k0 v0] l IH]; simpl; intros Hin;
    [apply elem_of_nil in Hin; contradiction|].
  destruct (decide (k ∈ l.*1)) as [Hl|Hl].
  - destruct (IH Hl) as (v & l1 & l2 & -> & Hk).
    exists v, ((k0, v0) :: l1), l2. split; [reflexivity|exact Hk].
  - apply elem_of_cons in Hin as [->|Hin]; [|contradiction].
    exists v0, [], l. split; [reflexivity|exact Hl].
Qed.

(** The statistics dictionary maps a name to the base value of the last
    pair of the payload with that name: a later pair overwrites an earlier
    one, and a name without a pair is not a key. *)
Theorem dict_of_pairs_last_wins (l : list (string * Z)) (k : string) :
  (forall v,
     dict_of_pairs l !! k = Some v <->
     exists l1 l2, l = (l1 ++ (k, v) :: l2)%list /\ k ∉ l2.*1) /\
  (dict_of_pairs l !! k = None <-> k ∉ l.*1).
Proof.
  assert (Hv : forall v,
            dict_of_pairs l !! k = Some v <->
            exists l1 l2, l = (l1 ++ (k, v) :: l2)%list /\ k ∉ l2.*1).
  { intros v. unfold dict_of_pairs. split.
    - intros H. apply foldl_insert_lookup in H as [H | (H & _)]; [exact H|].
      rewrite lookup_empty in H. discriminate.
    - intros (l1 & l2 & -> & Hk). rewrite foldl_app. simpl.
      rewrite foldl_insert_other by exact Hk. apply lookup_insert_eq. }
  split; [exact Hv|]. split.
  - intros Hnone Hin.
    destruct (last_pair_of_key k l Hin) as (v' & l1 & l2 & Hl & Hk).
    assert (dict_of_pairs l !! k = Some v') as E
      by (apply Hv; exists l1, l2; split; assumption).
    congruence.
  - intros Hk. unfold dict_of_pairs. rewrite foldl_insert_other by exact Hk.
    apply lookup_empty.
Qed.

(** A repeated statistic keeps its last value. *)
Example dict_of_pairs_repeated_key :
  dict_of_pairs [("hp", 35); ("speed", 90); ("hp", 40)] !! "hp" = Some 40.
Proof. vm_compute. reflexivity. Qed.

(** ** Batches *)

Lemma gather_ok_iff {A} (tasks : list (result A)) (rs : list A) :
  gather tasks = Ok rs <-> tasks = map Ok rs.
Proof.
  revert rs. induction tasks as [|t tasks IH]; intros rs; simpl.
  - split; [intros H; injection H as <-; reflexivity|].
    destruct rs; [reflexivity|discriminate].
  - destruct t as [a|e]; simpl.
    + destruct (gather tasks) as [others|e] eqn:E; simpl.
      * split.
        -- intros H. injection H as <-. simpl. f_equal.
           apply IH. reflexivity.
        -- destruct rs as [|r rs]; [discriminate|]. simpl. intros H.
           injection H as -> H. apply IH in H. congruence.
      * split; [discriminate|].
        destruct rs as [|r rs]; [discriminate|]. simpl. intros H.
        injection H as -> H. apply IH in H. discriminate.
    + split; [discriminate|]. destruct rs; discriminate.
Qed.

Lemma gather_raise_inv {A} (tasks : list (result A)) (e : exn) :
  gather tasks = Raise e -> Raise e ∈ tasks.
Proof.
  induction tasks as [|t tasks IH]; simpl; [discriminate|].
  destruct t as [a|e']; simpl.
  - destruct (gather tasks) as [others|e'']; simpl; [discriminate|].
    intros H. injection H as ->. right. apply IH. reflexivity.
  - intros H. injection H as ->. left.
Qed.

Lemma gather_details_ok_inv (client : upstream) (names : list string)
    (results : list (option PokemonDetail.t)) :
  gather_details client names = Ok results ->
  Forall (returns client) names /\ results = map (resolved client) names.
Proof.
  unfold gather_details. intros H. apply gather_ok_iff in H.
  revert results H. induction names as [|name names IH]; intros results H.
  - destruct results; [|discriminate]. split; [constructor|reflexivity].
  - destruct results as [|r results]; [discriminate|]. simpl in H.
    injection H as Hr H. destruct (IH _ H) as [Hall ->].
    split.
    + constructor; [exists r; exact Hr|exact Hall].
    + simpl. f_equal. unfold resolved. rewrite Hr. destruct r; reflexivity.
Qed.

Lemma gather_details_raise (client : upstream) (names : list string) (e : exn) :
  gather_details client names = Raise e ->
  e = KeyError "front_default" \/ e = ValidationError "sprite_url".
Proof.
  intros H. apply gather_raise_inv in H.
  apply list_elem_of_fmap in H as (name & H & _).
  symmetry in H. exact (get_pokemon_details_raise _ _ _ H).
Qed.

Lemma surviving_records_length (client : upstream) (names : list string) :
  (length (surviving_records client names) <= length names)%nat.
Proof.
  induction names as [|name names IH]; simpl; [lia|].
  destruct (resolved client name); simpl; lia.
Qed.

(** The gathered results line up with the names: the batch returns a list
    exactly when every hydration returns, and position for position the
    list holds what each hydration returned. *)
Theorem gather_details_positions (client : upstream) (names : list string)
    (results : list (option PokemonDetail.t)) :
  gather_details client names = Ok results <->
  length results = length names /\
  forall (i : nat) name,
    names !! i = Some name ->
    exists r, results !! i = Some r /\
              get_pokemon_details client (Name name) = Ok r.
Proof.
  unfold gather_details. rewrite gather_ok_iff. split.
  - intros H. split.
    + apply (f_equal length) in H. rewrite !length_map in H. lia.
    + intros i name Hi.
      apply (f_equal (fun l => l !! i)) in H.
      change (map ?f ?l) with (f <$> l) in H.
      rewrite !list_lookup_fmap, Hi in H. simpl in H.
      destruct (results !! i) as [r|]; [|discriminate].
      exists r. split; [reflexivity|]. simpl in H. congruence.
  - intros [Hlen H]. apply list_eq. intros i.
    change (map ?f ?l) with (f <$> l).
    rewrite !list_lookup_fmap.
    destruct (names !! i) as [name|] eqn:Hi; simpl.
    + destruct (H i name Hi) as (r & -> & ->). reflexivity.
    + apply lookup_ge_None in Hi.
      rewrite (proj2 (lookup_ge_None results i)) by lia. reflexivity.
Qed.

(** ** The comparison handler *)

(** Every HTTP error of the comparison: 400 goes with a request of fewer
    than two or more than six names, 404 with a request of two to six names
    whose hydrations all returned and none resolved. *)
Theorem compare_http_errors (client : upstream) (names : list string)
    (code : Z) (detail : string) :
  compare_pokemon client names = Raise (HTTPException code detail) ->
  (code = 400 /\ ((length names < 2)%nat \/ (6 < length names)%nat)) \/
  (code = 404 /\ (2 <= length names <= 6)%nat /\
   Forall (returns client) names /\ surviving_records client names = []).
Proof.
  unfold compare_pokemon.
  destruct (Nat.ltb_spec (length names) 2) as [Hlo|Hlo].
  { intros H. injection H as <- _. left. split; [reflexivity|left; exact Hlo]. }
  destruct (Nat.ltb_spec 6 (length names)) as [Hhi|Hhi].
  { intros H. injection H as <- _. left. split; [reflexivity|right; exact Hhi]. }
  destruct (gather_details client names) as [results|e] eqn:G; simpl.
  - apply gather_details_ok_inv in G as [Hr ->].
    rewrite append_found_keep_found, keep_found_resolved.
    destruct (surviving_records client names) as [|p l] eqn:S.
    + intros H. injection H as <- _. right. repeat split; auto.
    + destruct (build_comparison_total (p :: l)) as [c Hc]; [discriminate|].
      rewrite Hc. discriminate.
  - intros H. injection H as ->.
    apply gather_details_raise in G as [G|G]; discriminate.
Qed.

Lemma compare_http_errors_witness :
  (404 = 400 /\ ((length ["missingno"; "glitch"] < 2)%nat \/
                 (6 < length ["missingno"; "glitch"])%nat)) \/
  (404 = 404 /\ (2 <= length ["missingno"; "glitch"] <= 6)%nat /\
   Forall (returns sample_upstream) ["missingno"; "glitch"] /\
   surviving_records sample_upstream ["missingno"; "glitch"] = []).
Proof.
  apply (compare_http_errors sample_upstream ["missingno"; "glitch"] 404
           "None of the requested Pokemon were found").
  vm_compute. reflexivity.
Defined.

(** A returned comparison carries the records of the names that resolved,
    in request order: at least one, at most as many as the names, of which
    there are two to six. *)
Theorem compare_result_records (client : upstream) (names : list string)
    (r : ComparisonResult.t) :
  compare_pokemon client names = Ok r ->
  ComparisonResult.pokemon r = surviving_records client names /\
  (2 <= length names <= 6)%nat /\
  (1 <= length (ComparisonResult.pokemon r) <= length names)%nat.
Proof.
  unfold compare_pokemon.
  destruct (Nat.ltb_spec (length names) 2) as [Hlo|Hlo]; [discriminate|].
  destruct (Nat.ltb_spec 6 (length names)) as [Hhi|Hhi]; [discriminate|].
  destruct (gather_details client names) as [results|e] eqn:G; [|discriminate].
  simpl. apply gather_details_ok_inv in G as [Hr ->].
  rewrite append_found_keep_found, keep_found_resolved.
  pose proof (surviving_records_length client names) as Hlen.
  destruct (surviving_records client names) as [|p l] eqn:S; [discriminate|].
  destruct (build_comparison (p :: l)) as [c|e]; [|discriminate].
  simpl. intros H. injection H as <-. simpl in *. repeat split; lia.
Qed.

Lemma compare_result_records_witness :
  exists r,
    compare_pokemon sample_upstream ["Pikachu"; "missingno"; "MEW"] = Ok r /\
    ComparisonResult.pokemon r
    = surviving_records sample_upstream ["Pikachu"; "missingno"; "MEW"] /\
    (2 <= length ["Pikachu"; "missingno"; "MEW"] <= 6)%nat /\
    (1 <= length (ComparisonResult.pokemon r)
       <= length ["Pikachu"; "missingno"; "MEW"])%nat.
Proof.
  destruct (compare_pokemon sample_upstream ["Pikachu"; "missingno"; "MEW"])
    as [r|e] eqn:E; [|vm_compute in E; discriminate].
  exists r. split; [reflexivity|].
  exact (compare_result_records sample_upstream _ r E).
Defined.

(** ** The comparison tables *)




(** In a built comparison the statistics table has exactly the keys hp,
    attack, defense, special-attack, special-defense and speed, and in
    every entry, as in the height and weight entries, both names are names
    of compared records and the lowest value is at most the highest. *)
Theorem comparison_tables_shape (pokemon_list : list PokemonDetail.t)
    (c : comparison_tables) :
  build_comparison pokemon_list = Ok c ->
  (forall stat,
     is_Some (cmp_stats c !! stat) <->
     stat ∈ ["hp"; "attack"; "defense"; "special-attack"; "special-defense";
             "speed"]) /\
  (forall e,
     (e = cmp_height c \/ e = cmp_weight c \/
      exists stat, cmp_stats c !! stat = Some e) ->
     (lowest e).2 <= (highest e).2 /\
     (highest e).1 ∈ map PokemonDetail.name pokemon_list /\
     (lowest e).1 ∈ map PokemonDetail.name pokemon_list).
Proof.
  assert (entry : forall value e,
            extremes_of value pokemon_list = Ok e ->
            (lowest e).2 <= (highest e).2 /\
            (highest e).1 ∈ map PokemonDetail.name pokemon_list /\
            (lowest e).1 ∈ map PokemonDetail.name pokemon_list).
  { intros value e He. destruct pokemon_list as [|first rest];
      [discriminate|].
    destruct (extremes_of_first value first rest)
      as (e' & He' & (i & p & Hp & Hhi & Hmax & _) & (j & q & Hq & Hlo & _)).
    rewrite He in He'. injection He' as <-. rewrite Hhi, Hlo. cbn [fst snd].
    change (map PokemonDetail.name (first :: rest))
      with (PokemonDetail.name <$> first :: rest).
    apply list_elem_of_lookup_2 in Hp, Hq. repeat split.
    - apply Hmax, Hq.
    - apply list_elem_of_fmap. exists p. split; [reflexivity|exact Hp].
    - apply list_elem_of_fmap. exists q. split; [reflexivity|exact Hq]. }
  unfold build_comparison. intros H.
  destruct pokemon_list as [|first rest]; [discriminate|].
  destruct (compare_stats_entries (first :: rest) STAT_NAMES) with (table := (∅ : gmap string extremes))
    as (table & Ht & Hspec); [discriminate|].
  rewrite Ht in H. cbn [bind] in H.
  destruct (extremes_of PokemonDetail.height (first :: rest)) as [eh|] eqn:Eh;
    [|discriminate].
  destruct (extremes_of PokemonDetail.weight (first :: rest)) as [ew|] eqn:Ew;
    [|discriminate].
  cbn [bind] in H. injection H as <-. simpl. split.
  - intros stat.
    change (is_Some (table !! stat) <-> stat ∈ STAT_NAMES). split.
    + intros Hsome. destruct (decide (stat ∈ STAT_NAMES)) as [Hin|Hout];
        [exact Hin|].
      rewrite (proj2 (Hspec stat) Hout), lookup_empty in Hsome.
      destruct Hsome as [? ?]. discriminate.
    + intros Hin. destruct (proj1 (Hspec stat) Hin) as (e & He & _).
      exists e. exact He.
  - intros e [->|[->|(stat & He)]].
    + exact (entry _ _ Eh).
    + exact (entry _ _ Ew).
    + destruct (decide (stat ∈ STAT_NAMES)) as [Hin|Hout].
      * destruct (proj1 (Hspec stat) Hin) as (e' & He' & Hx).
        rewrite He in He'. injection He' as <-. exact (entry _ _ Hx).
      * rewrite (proj2 (Hspec stat) Hout), lookup_empty in He. discriminate.
Qed.

Lemma comparison_tables_shape_witness :
  exists c,
    build_comparison [hydrated pikachu_data "p.png"; hydrated mew_data "m.png"]
      = Ok c /\
    (forall stat,
       is_Some (cmp_stats c !! stat) <->
       stat ∈ ["hp"; "attack"; "defense"; "special-attack"; "special-defense";
               "speed"]) /\
    (lowest (cmp_height c)).2 <= (highest (cmp_height c)).2.
Proof.
  destruct (build_comparison
              [hydrated pikachu_data "p.png"; hydrated mew_data "m.png"])
    as [c|e] eqn:E; [|vm_compute in E; discriminate].
  exists c. split; [reflexivity|].
  destruct (comparison_tables_shape _ c E) as (H1 & H2).
  split; [exact H1|]. apply (H2 (cmp_height c)). left. reflexivity.
Defined.

(** ** Named groups and pagination *)

(** The trainer lookup answers an HTTP error exactly for a trainer whose
    lower-cased name is not in the roster table, and then 404 naming the
    lower-cased trainer; whether a listed trainer's Pokemon are found or not
    never turns into such an error. *)
Theorem trainer_http_error_iff_unknown (client : upstream)
    (trainer_name : string) (code : Z) (detail : string) :
  get_trainer_pokemon client trainer_name = Raise (HTTPException code detail)
  <->
  FAMOUS_TRAINERS !! str_lower trainer_name = None /\
  code = 404 /\
  detail = "Trainer " +:+ str_lower trainer_name +:+ " not found".
Proof.
  unfold get_trainer_pokemon.
  destruct (FAMOUS_TRAINERS !! str_lower trainer_name) as [names|].
  - destruct (gather_details client names) as [results|e] eqn:G; simpl.
    + split; [discriminate|]. intros (H & _). discriminate.
    + split; [|intros (H & _); discriminate].
      intros H. injection H as ->.
      apply gather_details_raise in G as [G|G]; discriminate.
  - split.
    + intros H. injection H as <- <-. auto.
    + intros (_ & -> & ->). reflexivity.
Qed.

Lemma slice_bound_range (len i : Z) :
  0 <= len -> 0 <= slice_bound len i <= len.
Proof. unfold slice_bound. destruct (Z.ltb_spec i 0); lia. Qed.

(** A page with a non-negative offset and limit is the plain one: skip
    [offset] entries, keep at most [limit]. *)
Theorem py_slice_page {A} (l : list A) (offset limit : Z) :
  0 <= offset -> 0 <= limit ->
  py_slice l offset (offset + limit)
  = take (Z.to_nat limit) (drop (Z.to_nat offset) l).
Proof.
  intros Ho Hl. unfold py_slice, slice_bound.
  destruct (Z.ltb_spec offset 0) as [?|_]; [lia|].
  destruct (Z.ltb_spec (offset + limit) 0) as [?|_]; [lia|].
  destruct (Z_le_gt_dec (Z.of_nat (length l)) offset) as [Hbig|Hin].
  - rewrite !Z.min_r by lia.
    rewrite (drop_ge l (Z.to_nat offset)) by lia.
    rewrite (drop_ge l (Z.to_nat (Z.of_nat (length l)))) by lia.
    rewrite !take_nil. reflexivity.
  - rewrite (Z.min_l offset) by lia.
    destruct (Z_le_gt_dec (offset + limit) (Z.of_nat (length l))) as [Hfit|Hcut].
    + rewrite Z.min_l by lia. f_equal. lia.
    + rewrite Z.min_r by lia.
      rewrite !take_ge; [reflexivity| |]; rewrite length_drop; lia.
Qed.

Lemma py_slice_page_witness :
  py_slice ["bulbasaur"; "ivysaur"; "venusaur"; "charmander"] 1 (1 + 2)
  = take (Z.to_nat 2)
         (drop (Z.to_nat 1) ["bulbasaur"; "ivysaur"; "venusaur"; "charmander"]).
Proof.
  apply (py_slice_page ["bulbasaur"; "ivysaur"; "venusaur"; "charmander"] 1 2);
    lia.
Defined.

Lemma py_slice_length {A} (l : list A) (offset limit : Z) :
  0 <= limit ->
  (length (py_slice l offset (offset + limit)) <= Z.to_nat limit)%nat.
Proof.
  intros Hl. unfold py_slice. rewrite length_take.
  pose proof (Zle_0_nat (length l)) as Hlen.
  unfold slice_bound.
  destruct (Z.ltb_spec offset 0); destruct (Z.ltb_spec (offset + limit) 0); lia.
Qed.

Lemma keep_found_length (results : list (option PokemonDetail.t)) :
  (length (keep_found results) <= length results)%nat.
Proof.
  induction results as [|[p|] rest IH]; simpl; lia.
Qed.

(** With a non-negative limit a region page never holds more than [limit]
    records, whatever the offset, negative ones included. *)
Theorem region_page_size (client : upstream) (region_name : string)
    (limit offset : Z) (page : list PokemonDetail.t) :
  0 <= limit ->
  get_region_pokemon client region_name limit offset = Ok page ->
  (length page <= Z.to_nat limit)%nat.
Proof.
  intros Hl. unfold get_region_pokemon.
  destruct (POKEMON_REGIONS !! str_lower region_name) as [info|];
    [|discriminate].
  destruct (pokedex_endpoint client (pokedex info)) as [r|e]; [|discriminate].
  simpl. destruct (negb (status_code r =? 200)); [discriminate|].
  destruct (response_json r) as [data|e]; [|discriminate]. simpl.
  destruct (gather_details client _) as [results|e] eqn:G; [|discriminate].
  simpl. intros H. injection H as <-.
  apply gather_details_ok_inv in G as [_ ->].
  pose proof (keep_found_length
                (map (resolved client)
                   (py_slice (pokemon_entries data) offset (offset + limit)))) as Hk.
  rewrite length_map in Hk.
  pose proof (py_slice_length (pokemon_entries data) offset limit Hl). lia.
Qed.

Lemma region_page_size_witness :
  exists page,
    get_region_pokemon sample_upstream "Kanto" 2 (-3) = Ok page /\
    (length page <= Z.to_nat 2)%nat.
Proof.
  destruct (get_region_pokemon sample_upstream "Kanto" 2 (-3))
    as [page|e] eqn:E; [|vm_compute in E; discriminate].
  exists page. split; [reflexivity|].
  apply (region_page_size sample_upstream "Kanto" 2 (-3) page); [lia|exact E].
Defined.

(** A negative limit is not an empty page: the slice then stops short of
    the end of the pokedex. *)
Example negative_limit_page :
  (let* page := get_region_pokemon sample_upstream "kanto" (-1) 0 in
   Ok (map PokemonDetail.name page))
  = Ok ["bulbasaur"; "charmander"; "squirtle"].
Proof. vm_compute. reflexivity. Qed.

Lemma get_trainer_pokemon_survivors_witness :
  get_trainer_pokemon sample_upstream "ASH"
  = Ok (surviving_records sample_upstream
          ["pikachu"; "charizard"; "squirtle"; "bulbasaur"; "greninja";
           "infernape"; "sceptile"; "lycanroc"; "dragonite"; "gengar"]).
Proof.
  apply (get_trainer_pokemon_survivors sample_upstream "ASH").
  - vm_compute. reflexivity.
  - repeat constructor; eexists; vm_compute; reflexivity.
Defined.

Lemma get_region_pokemon_survivors_witness :
  get_region_pokemon sample_upstream "Kanto" 3 1
  = Ok (surviving_records sample_upstream
          (py_slice ["bulbasaur"; "charmander"; "squirtle"; "pikachu"] 1 (1 + 3))).
Proof.
  apply (get_region_pokemon_survivors sample_upstream "Kanto"
           {| generation := "generation-i"; pokedex := "kanto" |}
           {| pokemon_entries := ["bulbasaur"; "charmander"; "squirtle"; "pikachu"] |}
           3 1).
  - vm_compute. reflexivity.
  - vm_compute. reflexivity.
  - repeat constructor; eexists; vm_compute; reflexivity.
Defined.

(** ** Letter case *)

(** Hydration, the trainer and region lookups and team removal depend only
    on the lower-cased form of the name they are given; so does the store
    an add leaves behind. *)
Theorem lookups_ignore_case (client : upstream) (s : string) :
  get_pokemon_details client (Name (str_lower s))
    = get_pokemon_details client (Name s) /\
  get_trainer_pokemon client (str_lower s) = get_trainer_pokemon client s /\
  (forall limit offset,
     get_region_pokemon client (str_lower s) limit offset
     = get_region_pokemon client s limit offset) /\
  (forall user_id teams,
     remove_from_team user_id (str_lower s) teams
     = remove_from_team user_id s teams) /\
  (forall user_id teams,
     (add_to_team client user_id (str_lower s) teams).1
     = (add_to_team client user_id s teams).1).
Proof.
  split; [apply get_pokemon_details_lower|].
  split; [unfold get_trainer_pokemon; rewrite str_lower_idempotent; reflexivity|].
  split; [intros; unfold get_region_pokemon; rewrite str_lower_idempotent;
          reflexivity|].
  split.
  - intros. rewrite !remove_from_team_unfold, str_lower_idempotent. reflexivity.
  - intros. rewrite !add_to_team_unfold. cbv zeta.
    rewrite str_lower_idempotent, get_pokemon_details_lower.
    destruct (6 <=? length (team_of teams user_id))%nat; [reflexivity|].
    destruct (bool_decide _); [reflexivity|].
    destruct (get_pokemon_details client (Name s)) as [[p|]|e]; reflexivity.
Qed.

(** ** Team operations *)

Lemma find_member_Some (pokemon_name : string) (team : list PokemonDetail.t) :
  forall k i : nat,
    find_member pokemon_name team k = Some i ->
    exists (j : nat) p,
      i = (k + j)%nat /\ team !! j = Some p /\
      str_lower (PokemonDetail.name p) = pokemon_name /\
      forall (j' : nat) q, (j' < j)%nat -> team !! j' = Some q ->
                           str_lower (PokemonDetail.name q) <> pokemon_name.
Proof.
  induction team as [|m team IH]; intros k i; simpl; [discriminate|].
  destruct (bool_decide_reflect (str_lower (PokemonDetail.name m) = pokemon_name))
    as [Hm|Hm].
  - intros H. injection H as <-. exists 0%nat, m.
    repeat split; [lia|exact Hm|]. intros j' q Hj. lia.
  - intros H. destruct (IH _ _ H) as (j & p & -> & Hp & Hn & Hfirst).
    exists (S j), p. repeat split; [lia|exact Hp|exact Hn|].
    intros [|j'] q Hj Hq; simpl in Hq.
    + injection Hq as <-. exact Hm.
    + apply (Hfirst j'); [lia|exact Hq].
Qed.

Lemma find_member_None (pokemon_name : string) (team : list PokemonDetail.t) :
  forall k : nat,
    find_member pokemon_name team k = None <->
    pokemon_name ∉ member_names team.
Proof.
  unfold member_names. induction team as [|m team IH]; intros k; simpl.
  - split; [intros _; apply not_elem_of_nil|reflexivity].
  - destruct (bool_decide_reflect (str_lower (PokemonDetail.name m) = pokemon_name))
      as [Hm|Hm].
    + split; [discriminate|]. intros H. exfalso. apply H. rewrite Hm. left.
    + rewrite IH, not_elem_of_cons. split; [|tauto].
      intros H. split; [congruence|exact H].
Qed.

(** A removal succeeds exactly when some member's lower-cased name is the
    lower-cased request. It then takes out the first such member and no
    other, so the team is one shorter; the response lists the team as
    stored; the other users' teams are untouched. *)
Theorem remove_takes_first_match (user_id pokemon_name : string)
    (teams : team_store) :
  (is_ok (remove_from_team user_id pokemon_name teams).2 <->
   str_lower pokemon_name ∈ member_names (team_of teams user_id)) /\
  (forall teams' response,
     remove_from_team user_id pokemon_name teams = (teams', Ok response) ->
     exists (i : nat) p,
       team_of teams user_id !! i = Some p /\
       str_lower (PokemonDetail.name p) = str_lower pokemon_name /\
       (forall (j : nat) q, (j < i)%nat -> team_of teams user_id !! j = Some q ->
          str_lower (PokemonDetail.name q) <> str_lower pokemon_name) /\
       team_of teams' user_id = delete i (team_of teams user_id) /\
       S (length (team_of teams' user_id)) = length (team_of teams user_id) /\
       TeamResponse.team response = team_of teams' user_id /\
       TeamResponse.team_size response = length (team_of teams' user_id) /\
       (forall u, u <> user_id -> team_of teams' u = team_of teams u)).
Proof.
  rewrite remove_from_team_unfold. split.
  - destruct (team_of teams user_id) as [|m t] eqn:E.
    + simpl. split; [intros [a Ha]; discriminate|].
      intros H. apply elem_of_nil in H. contradiction.
    + cbv zeta.
      destruct (find_member (str_lower pokemon_name) (m :: t) 0) as [i|] eqn:F.
      * split; [|intros _; eexists; reflexivity]. intros _.
        destruct (decide (str_lower pokemon_name ∈ member_names (m :: t)))
          as [H|H]; [exact H|].
        apply (find_member_None _ _ 0%nat) in H. congruence.
      * split; [intros [a Ha]; discriminate|]. intros H.
        apply (find_member_None _ _ 0%nat) in F. contradiction.
  - intros teams' response.
    destruct (team_of teams user_id) as [|m t] eqn:E; [discriminate|].
    cbv zeta.
    destruct (find_member (str_lower pokemon_name) (m :: t) 0) as [i|] eqn:F;
      [|discriminate].
    intros H. injection H as <- <-.
    apply find_member_Some in F as (j & p & -> & Hp & Hn & Hfirst).
    simpl plus. exists j, p.
    rewrite team_of_insert. destruct (decide (user_id = user_id)); [|congruence].
    repeat split; try assumption; try reflexivity.
    + rewrite length_delete by (exists p; exact Hp). simpl. lia.
    + intros u Hu. rewrite team_of_insert.
      destruct (decide (user_id = u)); [congruence|reflexivity].
Qed.

Lemma remove_takes_first_match_witness :
  exists teams' response (i : nat) p,
    remove_from_team "red" "SQUIRTLE" (run_ops red_team_ops)
      = (teams', Ok response) /\
    team_of (run_ops red_team_ops) "red" !! i = Some p /\
    team_of teams' "red" = delete i (team_of (run_ops red_team_ops) "red").
Proof.
  destruct (remove_from_team "red" "SQUIRTLE" (run_ops red_team_ops))
    as [teams' [response|e]] eqn:E; [|vm_compute in E; discriminate].
  destruct (proj2 (remove_takes_first_match "red" "SQUIRTLE" (run_ops red_team_ops))
              teams' response E)
    as (i & p & Hp & _ & _ & Hd & _).
  exists teams', response, i, p. repeat split; assumption.
Defined.

(** A removal that fails changes nothing in the store and answers 404. *)
Theorem failed_remove_keeps_store (user_id pokemon_name : string)
    (teams teams' : team_store) (e : exn) :
  remove_from_team user_id pokemon_name teams = (teams', Raise e) ->
  teams' = teams /\
  (str_lower pokemon_name ∉ member_names (team_of teams user_id)) /\
  (exists detail, e = HTTPException 404 detail).
Proof.
  rewrite remove_from_team_unfold.
  destruct (team_of teams user_id) as [|m t] eqn:E.
  - intros H. injection H as <- <-. split; [reflexivity|].
    split; [apply not_elem_of_nil|eexists; reflexivity].
  - cbv zeta.
    destruct (find_member (str_lower pokemon_name) (m :: t) 0) as [i|] eqn:F;
      [discriminate|].
    intros H. injection H as <- <-. split; [reflexivity|].
    split; [apply (find_member_None _ _ 0%nat), F|eexists; reflexivity].
Qed.

Lemma failed_remove_keeps_store_witness :
  (remove_from_team "red" "mew" (run_ops red_team_ops)).1 = run_ops red_team_ops.
Proof.
  destruct (remove_from_team "red" "mew" (run_ops red_team_ops))
    as [teams' [response|e]] eqn:E; [vm_compute in E; discriminate|].
  exact (proj1 (failed_remove_keeps_store "red" "mew" _ teams' e E)).
Defined.

Lemma add_to_team_ok_inv (client : upstream) (user_id pokemon_name : string)
    (teams teams' : team_store) (response : TeamResponse.t) :
  add_to_team client user_id pokemon_name teams = (teams', Ok response) ->
  exists p,
    get_pokemon_details client (Name pokemon_name) = Ok (Some p) /\
    team_of teams' user_id = (team_of teams user_id ++ [p])%list /\
    (str_lower pokemon_name ∉ map PokemonDetail.name (team_of teams user_id)) /\
    (forall u, u <> user_id -> team_of teams' u = team_of teams u).
Proof.
  rewrite add_to_team_unfold. cbv zeta.
  destruct (6 <=? length (team_of teams user_id))%nat; [discriminate|].
  destruct (bool_decide_reflect
              (str_lower pokemon_name
                 ∈ map PokemonDetail.name (team_of teams user_id)))
    as [?|Hnew]; [discriminate|].
  destruct (get_pokemon_details client (Name pokemon_name)) as [[p|]|e];
    try discriminate.
  intros H. injection H as <- _. exists p.
  rewrite team_of_insert. destruct (decide (user_id = user_id)); [|congruence].
  repeat split; try assumption; try reflexivity.
  intros u Hu. rewrite team_of_insert.
  destruct (decide (user_id = u)); [congruence|apply team_of_initialised].
Qed.

(** An add that succeeds appends, at the end of the user's team, the record
    the request hydrates to: the team had fewer than six members, none of
    them named like the lower-cased request; the response lists the team as
    stored; the other users' teams are untouched. *)
Theorem add_appends_hydrated_record
    (client : upstream) (user_id pokemon_name : string)
    (teams teams' : team_store) (response : TeamResponse.t) :
  add_to_team client user_id pokemon_name teams = (teams', Ok response) ->
  exists p,
    get_pokemon_details client (Name pokemon_name) = Ok (Some p) /\
    team_of teams' user_id = (team_of teams user_id ++ [p])%list /\
    (length (team_of teams user_id) < 6)%nat /\
    (str_lower pokemon_name ∉ map PokemonDetail.name (team_of teams user_id)) /\
    TeamResponse.user_id response = user_id /\
    TeamResponse.team response = team_of teams' user_id /\
    TeamResponse.team_size response = length (team_of teams' user_id) /\
    (forall u, u <> user_id -> team_of teams' u = team_of teams u).
Proof.
  rewrite add_to_team_unfold. cbv zeta.
  destruct (Nat.leb_spec 6 (length (team_of teams user_id))) as [?|Hroom];
    [discriminate|].
  destruct (bool_decide_reflect
              (str_lower pokemon_name
                 ∈ map PokemonDetail.name (team_of teams user_id)))
    as [?|Hnew]; [discriminate|].
  destruct (get_pokemon_details client (Name pokemon_name)) as [[p|]|e];
    try discriminate.
  intros H. injection H as <- <-. exists p.
  rewrite team_of_insert. destruct (decide (user_id = user_id)); [|congruence].
  repeat split; try assumption; try reflexivity.
  intros u Hu. rewrite team_of_insert.
  destruct (decide (user_id = u)); [congruence|apply team_of_initialised].
Qed.

Lemma add_appends_hydrated_record_witness :
  exists teams' response p,
    add_to_team sample_upstream "red" "Mew"
      (run_ops [OpAdd sample_upstream "red" "pikachu"]) = (teams', Ok response) /\
    get_pokemon_details sample_upstream (Name "Mew") = Ok (Some p) /\
    team_of teams' "red"
    = (team_of (run_ops [OpAdd sample_upstream "red" "pikachu"]) "red" ++ [p])%list.
Proof.
  destruct (add_to_team sample_upstream "red" "Mew"
              (run_ops [OpAdd sample_upstream "red" "pikachu"]))
    as [teams' [response|e]] eqn:E; [|vm_compute in E; discriminate].
  destruct (add_appends_hydrated_record sample_upstream "red" "Mew" _
              teams' response E) as (p & Hp & Ht & _).
  exists teams', response, p. repeat split; assumption.
Defined.

Lemma find_member_last (pokemon_name : string) (team : list PokemonDetail.t)
    (p : PokemonDetail.t) :
  forall k : nat,
    pokemon_name ∉ member_names team ->
    str_lower (PokemonDetail.name p) = pokemon_name ->
    find_member pokemon_name (team ++ [p]) k = Some (k + length team)%nat.
Proof.
  unfold member_names. induction team as [|m team IH]; intros k Hout Hp; simpl.
  - rewrite bool_decide_eq_true_2 by exact Hp. f_equal. lia.
  - simpl in Hout. apply not_elem_of_cons in Hout as [Hm Hout].
    rewrite bool_decide_eq_false_2 by congruence.
    rewrite IH by assumption. f_equal. lia.
Qed.

Lemma delete_last {A} (l : list A) (x : A) :
  delete (length l) (l ++ [x])%list = l.
Proof. induction l as [|a l IH]; simpl; [reflexivity|]. rewrite IH. reflexivity. Qed.

(** Adding a Pokemon and then removing it by the name of the record that
    was appended gives the team back, provided no earlier member has that
    name in lower case. *)
Theorem add_then_remove_restores_team
    (client : upstream) (user_id pokemon_name : string)
    (teams teams1 : team_store) (response : TeamResponse.t)
    (p : PokemonDetail.t) :
  add_to_team client user_id pokemon_name teams = (teams1, Ok response) ->
  get_pokemon_details client (Name pokemon_name) = Ok (Some p) ->
  str_lower (PokemonDetail.name p) ∉ member_names (team_of teams user_id) ->
  exists teams2 response2,
    remove_from_team user_id (PokemonDetail.name p) teams1
      = (teams2, Ok response2) /\
    forall u, team_of teams2 u = team_of teams u.
Proof.
  intros Hadd Hp Hout.
  apply add_to_team_ok_inv in Hadd as (p' & Hp' & Hteam & _ & Hother).
  rewrite Hp in Hp'. injection Hp' as <-.
  rewrite remove_from_team_unfold, Hteam.
  destruct (team_of teams user_id ++ [p])%list as [|m t] eqn:E;
    [destruct (team_of teams user_id); discriminate|].
  cbv zeta. rewrite <- E.
  rewrite (find_member_last _ _ p 0%nat Hout eq_refl). simpl plus.
  eexists _, _. split; [reflexivity|].
  intros u. rewrite team_of_insert, delete_last.
  destruct (decide (user_id = u)) as [->|Hne]; [reflexivity|].
  apply Hother. congruence.
Qed.

Lemma add_then_remove_restores_team_witness :
  exists teams2 response2,
    remove_from_team "red" "mew"
      (add_to_team sample_upstream "red" "151"
         (run_ops [OpAdd sample_upstream "red" "pikachu"])).1
      = (teams2, Ok response2) /\
    forall u,
      team_of teams2 u
      = team_of (run_ops [OpAdd sample_upstream "red" "pikachu"]) u.
Proof.
  destruct (add_to_team sample_upstream "red" "151"
              (run_ops [OpAdd sample_upstream "red" "pikachu"]))
    as [teams1 [response|e]] eqn:E; [|vm_compute in E; discriminate].
  apply (add_then_remove_restores_team sample_upstream "red" "151" _ teams1
           response
           (hydrated mew_data
              "https://raw.githubusercontent.com/PokeAPI/sprites/master/sprites/pokemon/151.png")
           E).
  - vm_compute. reflexivity.
  - vm_compute. intros H. repeat (apply elem_of_cons in H as [H|H]; [discriminate|]).
    apply elem_of_nil in H. exact H.
Defined.

(** ** Sequences of team operations *)

Lemma run_ops_snoc (ops : list team_op) (op : team_op) :
  run_ops (ops ++ [op]) = run_op (run_ops ops) op.
Proof. unfold run_ops. apply foldl_snoc. Qed.

(** What one operation does to the teams: nothing, or it appends the record
    its add request hydrates to, or it takes one member out. *)
Lemma run_op_cases (teams : team_store) (op : team_op) :
  (forall u, team_of (run_op teams op) u = team_of teams u) \/
  (exists client pokemon_name p,
     op = OpAdd client (op_user op) pokemon_name /\
     get_pokemon_details client (Name pokemon_name) = Ok (Some p) /\
     (str_lower pokemon_name
        ∉ map PokemonDetail.name (team_of teams (op_user op))) /\
     team_of (run_op teams op) (op_user op)
     = (team_of teams (op_user op) ++ [p])%list /\
     forall u, u <> op_user op -> team_of (run_op teams op) u = team_of teams u) \/
  (exists i : nat,
     team_of (run_op teams op) (op_user op)
     = delete i (team_of teams (op_user op)) /\
     forall u, u <> op_user op -> team_of (run_op teams op) u = team_of teams u).
Proof.
  destruct op as [u|client u n|u n]; simpl.
  - left. rewrite get_team_unfold. reflexivity.
  - destruct (add_to_team client u n teams) as [teams' [response|e]] eqn:E.
    + right; left. apply add_to_team_ok_inv in E
        as (p & Hp & Ht & Hnew & Hother).
      exists client, n, p. simpl. auto.
    + left. intros u'. simpl.
      rewrite add_to_team_unfold in E. cbv zeta in E.
      destruct (6 <=? length (team_of teams u))%nat;
        [injection E as <- _; apply team_of_initialised|].
      destruct (bool_decide _);
        [injection E as <- _; apply team_of_initialised|].
      destruct (get_pokemon_details client (Name n)) as [[p|]|e'];
        [discriminate| |]; injection E as <- _; apply team_of_initialised.
  - rewrite remove_from_team_unfold.
    destruct (team_of teams u) as [|m t] eqn:E; [left; reflexivity|].
    cbv zeta. destruct (find_member (str_lower n) (m :: t) 0) as [i|];
      [|left; reflexivity].
    right; right. exists i. simpl. split.
    + rewrite team_of_insert. destruct (decide (u = u)); [|congruence].
      reflexivity.
    + intros u' Hu. rewrite team_of_insert.
      destruct (decide (u = u')); [congruence|reflexivity].
Qed.

(** An operation addressed to one user leaves every other user's team as it
    was. *)
Theorem other_teams_untouched (teams : team_store) (op : team_op) (u : string) :
  u <> op_user op -> team_of (run_op teams op) u = team_of teams u.
Proof.
  intros Hu.
  destruct (run_op_cases teams op)
    as [H | [(client & n & p & _ & _ & _ & _ & H) | (i & _ & H)]];
    [apply H | apply H, Hu | apply H, Hu].
Qed.

Lemma other_teams_untouched_witness :
  team_of (run_op (run_ops red_team_ops) (OpAdd sample_upstream "blue" "mew")) "red"
  = team_of (run_ops red_team_ops) "red".
Proof.
  apply (other_teams_untouched (run_ops red_team_ops)
           (OpAdd sample_upstream "blue" "mew") "red").
  simpl. discriminate.
Defined.

(** Every member of a team, after any sequence of operations from the empty
    store, is the record that an add request of that sequence for that user
    hydrates to; in particular it has both flags false and no description. *)
Theorem team_members_are_hydrations (ops : list team_op) (u : string)
    (p : PokemonDetail.t) :
  p ∈ team_of (run_ops ops) u ->
  (exists client pokemon_name,
     OpAdd client u pokemon_name ∈ ops /\
     get_pokemon_details client (Name pokemon_name) = Ok (Some p)) /\
  species_defaults p.
Proof.
  intros Hin.
  assert (Hadd : exists client pokemon_name,
             OpAdd client u pokemon_name ∈ ops /\
             get_pokemon_details client (Name pokemon_name) = Ok (Some p)).
  { revert u p Hin. induction ops as [|op ops IH] using rev_ind; intros u p Hin.
    - unfold run_ops, team_of in Hin. simpl in Hin. rewrite lookup_empty in Hin.
      apply elem_of_nil in Hin. contradiction.
    - rewrite run_ops_snoc in Hin.
      assert (Hold : p ∈ team_of (run_ops ops) u ->
                     exists client pokemon_name,
                       OpAdd client u pokemon_name ∈ (ops ++ [op])%list /\
                       get_pokemon_details client (Name pokemon_name)
                       = Ok (Some p)).
      { intros H. destruct (IH _ _ H) as (client & n & Hop & Hp).
        exists client, n. split; [|exact Hp].
        apply elem_of_app. left. exact Hop. }
      destruct (run_op_cases (run_ops ops) op)
        as [H | [(client & n & q & Hop & Hq & _ & Ht & Ho) | (i & Ht & Ho)]].
      + apply Hold. rewrite <- H. exact Hin.
      + destruct (decide (u = op_user op)) as [->|Hne].
        * rewrite Ht in Hin. apply elem_of_app in Hin as [Hin|Hin];
            [apply Hold, Hin|].
          apply list_elem_of_singleton in Hin. subst q.
          exists client, n. split; [|exact Hq].
          apply elem_of_app. right. rewrite <- Hop. left.
        * apply Hold. rewrite <- (Ho _ Hne). exact Hin.
      + destruct (decide (u = op_user op)) as [->|Hne].
        * rewrite Ht in Hin. apply list_elem_of_delete_inv in Hin.
          apply Hold, Hin.
        * apply Hold. rewrite <- (Ho _ Hne). exact Hin. }
  split; [exact Hadd|].
  destruct Hadd as (client & n & _ & Hp).
  apply get_pokemon_details_some in Hp as (d & url & _ & _ & ->).
  repeat split.
Qed.

Lemma team_members_are_hydrations_witness :
  exists client pokemon_name,
    OpAdd client "red" pokemon_name ∈ red_team_ops /\
    get_pokemon_details client (Name pokemon_name)
    = Ok (Some (hydrated charmander_data
                  "https://raw.githubusercontent.com/PokeAPI/sprites/master/sprites/pokemon/4.png")).
Proof.
  apply (team_members_are_hydrations red_team_ops "red"
           (hydrated charmander_data
              "https://raw.githubusercontent.com/PokeAPI/sprites/master/sprites/pokemon/4.png")).
  vm_compute. right. left.
Defined.

(** When every add of a sequence is made under the canonical name, so that
    the record appended is named like the lower-cased request, no two
    members of a team ever have the same name. *)
Theorem canonical_adds_keep_names_distinct (ops : list team_op) (u : string) :
  Forall canonical_op ops ->
  NoDup (map PokemonDetail.name (team_of (run_ops ops) u)).
Proof.
  revert u. induction ops as [|op ops IH] using rev_ind; intros u Hc.
  - unfold run_ops, team_of. simpl. rewrite lookup_empty. constructor.
  - apply Forall_app in Hc as [Hc Hop]. apply Forall_cons in Hop as [Hop _].
    rewrite run_ops_snoc.
    destruct (run_op_cases (run_ops ops) op)
      as [H | [(client & n & q & Eop & Hq & Hnew & Ht & Ho) | (i & Ht & Ho)]].
    + rewrite H. apply IH, Hc.
    + destruct (decide (u = op_user op)) as [->|Hne];
        [|rewrite (Ho _ Hne); apply IH, Hc].
      rewrite Ht, map_app. simpl. apply NoDup_app. split; [apply IH, Hc|].
      split; [|apply NoDup_singleton].
      intros x Hx Hx'. apply list_elem_of_singleton in Hx'. subst x.
      rewrite Eop in Hop. simpl in Hop. rewrite (Hop q Hq) in Hx.
      contradiction.
    + destruct (decide (u = op_user op)) as [->|Hne];
        [|rewrite (Ho _ Hne); apply IH, Hc].
      rewrite Ht.
      change (map PokemonDetail.name ?l) with (PokemonDetail.name <$> l).
      rewrite list_fmap_delete.
      eapply sublist_NoDup; [apply (IH (op_user op) Hc)|apply sublist_delete].
Qed.

Lemma canonical_adds_keep_names_distinct_witness :
  NoDup (map PokemonDetail.name
           (team_of (run_ops [OpAdd sample_upstream "red" "Pikachu";
                              OpRemove "red" "mew";
                              OpAdd sample_upstream "red" "MEW"]) "red")).
Proof.
  apply (canonical_adds_keep_names_distinct
           [OpAdd sample_upstream "red" "Pikachu"; OpRemove "red" "mew";
            OpAdd sample_upstream "red" "MEW"] "red").
  repeat constructor; simpl; intros p Hp; vm_compute in Hp;
    injection Hp as <-; vm_compute; reflexivity.
Defined.

(** A listing right after a successful add or removal returns the very
    response that operation returned, also when the removal emptied the
    team; a listing never raises and never changes the store. *)
Theorem get_team_agrees_with_last_response
    (client : upstream) (user_id pokemon_name : string)
    (teams teams' : team_store) (response : TeamResponse.t) :
  (add_to_team client user_id pokemon_name teams = (teams', Ok response) \/
   remove_from_team user_id pokemon_name teams = (teams', Ok response)) ->
  get_team user_id teams' = (teams', Ok response) /\
  forall u, get_team u teams
            = (teams, Ok (TeamResponse.mk u (team_of teams u)
                            (length (team_of teams u)))).
Proof.
  intros H. split; [|intros u; apply get_team_unfold].
  rewrite get_team_unfold. destruct H as [H|H].
  - rewrite add_to_team_unfold in H. cbv zeta in H.
    destruct (6 <=? length (team_of teams user_id))%nat; [discriminate|].
    destruct (bool_decide _); [discriminate|].
    destruct (get_pokemon_details client (Name pokemon_name)) as [[p|]|e];
      try discriminate.
    injection H as <- <-. rewrite team_of_insert.
    destruct (decide (user_id = user_id)); [reflexivity|congruence].
  - rewrite remove_from_team_unfold in H.
    destruct (team_of teams user_id) as [|m t]; [discriminate|].
    cbv zeta in H.
    destruct (find_member (str_lower pokemon_name) (m :: t) 0) as [i|];
      [|discriminate].
    injection H as <- <-. rewrite team_of_insert.
    destruct (decide (user_id = user_id)); [reflexivity|congruence].
Qed.

Lemma get_team_agrees_with_last_response_witness :
  exists teams' response,
    remove_from_team "red" "PIKACHU" (run_ops [OpAdd sample_upstream "red" "pikachu"])
      = (teams', Ok response) /\
    TeamResponse.team response = [] /\
    get_team "red" teams' = (teams', Ok response).
Proof.
  destruct (remove_from_team "red" "PIKACHU"
              (run_ops [OpAdd sample_upstream "red" "pikachu"]))
    as [teams' [response|e]] eqn:E; [|vm_compute in E; discriminate].
  exists teams', response. split; [reflexivity|]. split.
  - vm_compute in E. injection E as _ <-. reflexivity.
  - apply (get_team_agrees_with_last_response sample_upstream "red" "PIKACHU"
             (run_ops [OpAdd sample_upstream "red" "pikachu"]) teams' response).
    right. exact E.
Defined.

Lemma not_elem_of_delete_NoDup {A} (l : list A) : forall (i : nat) (x : A),
  NoDup l -> l !! i = Some x -> x ∉ delete i l.
Proof.
  induction l as [|a l IH]; intros [|i] x Hnd Hx; simpl in *; try discriminate.
  - injection Hx as <-. apply NoDup_cons in Hnd as [Ha _]. exact Ha.
  - apply NoDup_cons in Hnd as [Ha Hnd]. apply not_elem_of_cons. split.
    + intros <-. apply Ha. apply list_elem_of_lookup_2 in Hx. exact Hx.
    + apply IH; assumption.
Qed.

(** In a team whose members have distinct lower-cased names, removing a
    name a second time fails with 404 and changes nothing. *)
Theorem second_removal_fails (user_id pokemon_name : string)
    (teams teams1 : team_store) (response : TeamResponse.t) :
  NoDup (member_names (team_of teams user_id)) ->
  remove_from_team user_id pokemon_name teams = (teams1, Ok response) ->
  exists detail,
    remove_from_team user_id pokemon_name teams1
    = (teams1, Raise (HTTPException 404 detail)).
Proof.
  intros Hnd H. rewrite remove_from_team_unfold in H.
  destruct (team_of teams user_id) as [|m t] eqn:E; [discriminate|].
  cbv zeta in H.
  destruct (find_member (str_lower pokemon_name) (m :: t) 0) as [i|] eqn:F;
    [|discriminate].
  injection H as <- _.
  apply find_member_Some in F as (j & p & -> & Hp & Hn & _). simpl plus.
  assert (Hout : str_lower pokemon_name ∉ member_names (delete j (m :: t))).
  { unfold member_names in *.
    change (map ?f ?l) with (f <$> l) in *.
    rewrite list_fmap_delete.
    apply not_elem_of_delete_NoDup; [exact Hnd|].
    rewrite list_lookup_fmap, Hp. simpl. rewrite Hn. reflexivity. }
  rewrite remove_from_team_unfold, team_of_insert.
  destruct (decide (user_id = user_id)); [|congruence].
  destruct (delete j (m :: t)) as [|m' t'] eqn:D; [eexists; reflexivity|].
  cbv zeta. apply (find_member_None _ _ 0%nat) in Hout. rewrite Hout.
  eexists. reflexivity.
Qed.

Lemma second_removal_fails_witness :
  exists detail,
    remove_from_team "red" "Eevee"
      (remove_from_team "red" "Eevee" (run_ops red_team_ops)).1
    = ((remove_from_team "red" "Eevee" (run_ops red_team_ops)).1,
       Raise (HTTPException 404 detail)).
Proof.
  destruct (remove_from_team "red" "Eevee" (run_ops red_team_ops))
    as [teams1 [response|e]] eqn:E; [|vm_compute in E; discriminate].
  apply (second_removal_fails "red" "Eevee" (run_ops red_team_ops) teams1
           response); [|exact E].
  vm_compute. repeat (constructor; [intros H;
    repeat (apply elem_of_cons in H as [H|H]; [discriminate|]);
    apply elem_of_nil in H; exact H|]). constructor.
Defined.

(** ** Faults inside a batch *)

(** One hydration that raises takes the whole batch with it: the gathered
    batch raises, and so do a comparison of two to six names and a trainer
    lookup over a roster that contain such a name; no partial list is
    returned. *)
Theorem batch_aborts_on_raising_hydration
    (client : upstream) (names : list string) :
  Exists (fun name => ~ returns client name) names ->
  ~ is_ok (gather_details client names) /\
  ~ is_ok (compare_pokemon client names) /\
  (forall trainer_name,
     FAMOUS_TRAINERS !! str_lower trainer_name = Some names ->
     ~ is_ok (get_trainer_pokemon client trainer_name)).
Proof.
  intros Hex.
  assert (G : ~ is_ok (gather_details client names)).
  { unfold gather_details. apply gather_raises.
    apply Exists_exists in Hex as (name & Hin & Hname).
    apply Exists_exists. exists (get_pokemon_details client (Name name)).
    split; [|exact Hname].
    apply list_elem_of_fmap. exists name. split; [reflexivity|exact Hin]. }
  split; [exact G|]. split.
  - unfold compare_pokemon. intros [r Hr].
    destruct (length names <? 2)%nat; [discriminate|].
    destruct (6 <? length names)%nat; [discriminate|].
    destruct (gather_details client names) as [results|e]; [|discriminate].
    apply G. eexists. reflexivity.
  - intros trainer_name Ht [r Hr]. unfold get_trainer_pokemon in Hr.
    rewrite Ht in Hr.
    destruct (gather_details client names) as [results|e]; [|discriminate].
    apply G. eexists. reflexivity.
Qed.

Lemma batch_aborts_on_raising_hydration_witness :
  ~ is_ok (compare_pokemon sample_upstream ["pikachu"; "pikachu-starter"; "mew"]).
Proof.
  apply (batch_aborts_on_raising_hydration sample_upstream
           ["pikachu"; "pikachu-starter"; "mew"]).
  apply Exists_cons_tl, Exists_cons_hd. intros [a Ha].
  vm_compute in Ha. discriminate.
Defined.
